(** * VideoPlayer: playback synchronisation and capture engine

    A shallow embedding of the [VideoPlayer] React component: the two media
    elements behind [videoRef] and [audioRef], the component state held by
    [useState], and the handlers [syncDurations], [togglePlay],
    [handleTimeUpdate], [handleSeek], [handleVideoEnded], [toggleMute] and
    [handleDownloadVideo] with its [onstop], [drawFrame] and [checkEnd]
    callbacks.

    Numbers.  A JavaScript number is modelled by [num]: a finite value is an
    exact rational, and the three special values [Infinity], [-Infinity] and
    [NaN] are kept apart because the handlers test for them ([isFinite],
    [!== Infinity], truthiness, comparisons that are false on [NaN]).
    Rounding, overflow and the sign of zero are not modelled: arithmetic on
    finite values is exact.  Statements that compare a computed value with
    a threshold or with another value therefore leave a tolerance for the
    rounding of the running code; [Binary64] evaluates the formulas at the
    inputs where it shows.

    Exceptions.  [currentTime] refuses a value that is not finite: the
    handler that assigns one ends there ([handleSeek]). *)

From Stdlib Require Import QArith Qabs Qminmax ZArith Bool List String Lia Lqa.
From Stdlib Require PrimFloat.
Import ListNotations.
Open Scope Q_scope.

(** ** JavaScript numbers *)

Module JS.

Inductive num : Type :=
| Fin (q : Q)
| PInf
| NInf
| NaN.

Definition Qlt_bool (x y : Q) : bool := negb (Qle_bool y x).

(** [Boolean(x)] for a number: [0] and [NaN] are falsy. *)
Definition truthy (x : num) : bool :=
  match x with
  | Fin q => negb (Qeq_bool q 0)
  | PInf | NInf => true
  | NaN => false
  end.

(** [x !== Infinity]. *)
Definition notInfinity (x : num) : bool :=
  match x with
  | PInf => false
  | _ => true
  end.

(** The global [isFinite]. *)
Definition isFinite (x : num) : bool :=
  match x with
  | Fin _ => true
  | _ => false
  end.

(** [a > b]; false as soon as one side is [NaN]. *)
Definition gt (a b : num) : bool :=
  match a, b with
  | NaN, _ | _, NaN => false
  | Fin x, Fin y => Qlt_bool y x
  | PInf, PInf => false
  | PInf, _ => true
  | Fin _, NInf => true
  | _, _ => false
  end.

(** [a >= b]; false as soon as one side is [NaN]. *)
Definition ge (a b : num) : bool :=
  match a, b with
  | NaN, _ | _, NaN => false
  | Fin x, Fin y => Qle_bool y x
  | PInf, _ => true
  | _, NInf => true
  | _, _ => false
  end.

(** [a - b]. *)
Definition sub (a b : num) : num :=
  match a, b with
  | NaN, _ | _, NaN => NaN
  | Fin x, Fin y => Fin (x - y)
  | PInf, PInf | NInf, NInf => NaN
  | PInf, _ | _, NInf => PInf
  | NInf, _ | _, PInf => NInf
  end.

(** Sign of a finite value, used by the infinite cases of [*] and [/]. *)
Definition signed (positive : bool) : num := if positive then PInf else NInf.

(** [a * b]. *)
Definition mul (a b : num) : num :=
  match a, b with
  | NaN, _ | _, NaN => NaN
  | Fin x, Fin y => Fin (x * y)
  | Fin x, PInf | PInf, Fin x =>
      if Qeq_bool x 0 then NaN else signed (Qlt_bool 0 x)
  | Fin x, NInf | NInf, Fin x =>
      if Qeq_bool x 0 then NaN else signed (Qlt_bool x 0)
  | PInf, PInf | NInf, NInf => PInf
  | PInf, NInf | NInf, PInf => NInf
  end.

(** [a / b]. *)
Definition div (a b : num) : num :=
  match a, b with
  | NaN, _ | _, NaN => NaN
  | Fin x, Fin y =>
      if Qeq_bool y 0
      then (if Qeq_bool x 0 then NaN else signed (Qlt_bool 0 x))
      else Fin (x / y)
  | Fin _, PInf | Fin _, NInf => Fin 0
  | PInf, Fin y => signed (Qle_bool 0 y)
  | NInf, Fin y => signed (Qlt_bool y 0)
  | _, _ => NaN
  end.

(** [Math.abs]. *)
Definition abs (a : num) : num :=
  match a with
  | Fin x => Fin (Qabs x)
  | PInf | NInf => PInf
  | NaN => NaN
  end.


(** Truthiness of a [string | null] prop: [null] and the empty string are
    falsy. *)
Definition truthyStr (s : option string) : bool :=
  match s with
  | Some EmptyString | None => false
  | Some _ => true
  end.

(** Value equality of numbers ([NaN] is not related to itself by [===], but
    the relation below is only used to compare finite results). *)
Definition eqv (a b : num) : Prop :=
  match a, b with
  | Fin x, Fin y => x == y
  | PInf, PInf | NInf, NInf | NaN, NaN => True
  | _, _ => False
  end.

End JS.

Import JS.

Declare Scope num_scope.
Delimit Scope num_scope with num.
Bind Scope num_scope with num.
Infix "===" := eqv (at level 70, no associativity) : num_scope.
Open Scope num_scope.

(** ** The media elements and the component state *)

(** The part of an [HTMLMediaElement] the component reads and writes. *)
Record MediaElement : Type := mkMedia {
  duration : num;
  currentTime : num;
  playbackRate : num;
  muted : bool;
  paused : bool;
  videoWidth : Z;
  videoHeight : Z
}.

Definition set_currentTime (t : num) (m : MediaElement) : MediaElement :=
  mkMedia (duration m) t (playbackRate m) (muted m) (paused m)
          (videoWidth m) (videoHeight m).

Definition set_playbackRate (r : num) (m : MediaElement) : MediaElement :=
  mkMedia (duration m) (currentTime m) r (muted m) (paused m)
          (videoWidth m) (videoHeight m).

Definition set_muted (b : bool) (m : MediaElement) : MediaElement :=
  mkMedia (duration m) (currentTime m) (playbackRate m) b (paused m)
          (videoWidth m) (videoHeight m).

Definition set_paused (b : bool) (m : MediaElement) : MediaElement :=
  mkMedia (duration m) (currentTime m) (playbackRate m) (muted m) b
          (videoWidth m) (videoHeight m).

(** [el.pause()] and [el.play()]. *)
Definition pause : MediaElement -> MediaElement := set_paused true.
Definition play : MediaElement -> MediaElement := set_paused false.

(** The hidden canvas the capture draws into. *)
Record Canvas : Type := mkCanvas {
  width : Z;
  height : Z
}.

(** [{ video: number, audio: number }]. *)
Record Rates : Type := mkRates {
  video : num;
  audio : num
}.

(** Props, refs and [useState] cells of the component.  [stDuration] is the
    [duration] state cell (the element field already has that name). *)
Record Player : Type := mkPlayer {
  audioUrl : option string;
  fileName : string;
  videoRef : option MediaElement;
  audioRef : option MediaElement;
  canvasRef : option Canvas;
  isPlaying : bool;
  isMuted : bool;
  progress : num;
  stDuration : num;
  playbackRates : Rates;
  isRecording : bool;
  recordingProgress : num
}.

Definition set_videoRef (v : option MediaElement) (p : Player) : Player :=
  mkPlayer (audioUrl p) (fileName p) v (audioRef p) (canvasRef p)
           (isPlaying p) (isMuted p) (progress p) (stDuration p)
           (playbackRates p) (isRecording p) (recordingProgress p).

Definition set_audioRef (a : option MediaElement) (p : Player) : Player :=
  mkPlayer (audioUrl p) (fileName p) (videoRef p) a (canvasRef p)
           (isPlaying p) (isMuted p) (progress p) (stDuration p)
           (playbackRates p) (isRecording p) (recordingProgress p).

Definition set_canvasRef (c : option Canvas) (p : Player) : Player :=
  mkPlayer (audioUrl p) (fileName p) (videoRef p) (audioRef p) c
           (isPlaying p) (isMuted p) (progress p) (stDuration p)
           (playbackRates p) (isRecording p) (recordingProgress p).

Definition setIsPlaying (b : bool) (p : Player) : Player :=
  mkPlayer (audioUrl p) (fileName p) (videoRef p) (audioRef p) (canvasRef p)
           b (isMuted p) (progress p) (stDuration p)
           (playbackRates p) (isRecording p) (recordingProgress p).

Definition setIsMuted (b : bool) (p : Player) : Player :=
  mkPlayer (audioUrl p) (fileName p) (videoRef p) (audioRef p) (canvasRef p)
           (isPlaying p) b (progress p) (stDuration p)
           (playbackRates p) (isRecording p) (recordingProgress p).

Definition setProgress (x : num) (p : Player) : Player :=
  mkPlayer (audioUrl p) (fileName p) (videoRef p) (audioRef p) (canvasRef p)
           (isPlaying p) (isMuted p) x (stDuration p)
           (playbackRates p) (isRecording p) (recordingProgress p).

Definition setDuration (x : num) (p : Player) : Player :=
  mkPlayer (audioUrl p) (fileName p) (videoRef p) (audioRef p) (canvasRef p)
           (isPlaying p) (isMuted p) (progress p) x
           (playbackRates p) (isRecording p) (recordingProgress p).

Definition setPlaybackRates (r : Rates) (p : Player) : Player :=
  mkPlayer (audioUrl p) (fileName p) (videoRef p) (audioRef p) (canvasRef p)
           (isPlaying p) (isMuted p) (progress p) (stDuration p)
           r (isRecording p) (recordingProgress p).

Definition setIsRecording (b : bool) (p : Player) : Player :=
  mkPlayer (audioUrl p) (fileName p) (videoRef p) (audioRef p) (canvasRef p)
           (isPlaying p) (isMuted p) (progress p) (stDuration p)
           (playbackRates p) b (recordingProgress p).

Definition setRecordingProgress (x : num) (p : Player) : Player :=
  mkPlayer (audioUrl p) (fileName p) (videoRef p) (audioRef p) (canvasRef p)
           (isPlaying p) (isMuted p) (progress p) (stDuration p)
           (playbackRates p) (isRecording p) x.

(** Update of the element behind a ref when the ref is set
    ([if (ref.current) ref.current.f = ...] and [ref.current?.f()]). *)
Definition onVideo (f : MediaElement -> MediaElement) (p : Player) : Player :=
  set_videoRef (option_map f (videoRef p)) p.

Definition onAudio (f : MediaElement -> MediaElement) (p : Player) : Player :=
  set_audioRef (option_map f (audioRef p)) p.

(** The state of a freshly mounted component: [useState] initial values. *)
Definition mount (url : option string) (name : string)
           (v a : option MediaElement) (c : option Canvas) : Player :=
  mkPlayer url name v a c false true (Fin 0) (Fin 0)
           (mkRates (Fin 1) (Fin 1)) false (Fin 0).

(** ** Sync logic *)

(** The rate computation in the body of [syncDurations]: [newRates] starts as
    [{video: 1.0, audio: 1.0}] and one of the two fields is overwritten. *)
Definition computeRates (vDur aDur : num) : Rates :=
  if gt aDur vDur
  then mkRates (Fin 1) (div aDur vDur)
  else mkRates (div vDur aDur) (Fin 1).

(** [syncDurations], the [loadedmetadata] listener. *)
Definition syncDurations (p : Player) : Player :=
  match videoRef p, audioRef p, truthyStr (audioUrl p) with
  | Some v, Some a, true =>
      if truthy (duration v) && truthy (duration a)
         && notInfinity (duration v) && notInfinity (duration a)
      then
        let newRates := computeRates (duration v) (duration a) in
        let p := setPlaybackRates newRates p in
        let p := onVideo (set_playbackRate (video newRates)) p in
        let p := onAudio (set_playbackRate (audio newRates)) p in
        let p := onVideo (set_muted true) p in
        setIsMuted true p
      else p
  | Some v, _, _ => onVideo (set_playbackRate (Fin 1)) p
  | None, _, _ => p
  end.

(** ** Interactive playback *)

(** [togglePlay]. *)
Definition togglePlay (p : Player) : Player :=
  match videoRef p with
  | None => p
  | Some _ =>
      let p :=
        if isPlaying p
        then onAudio pause (onVideo pause p)
        else onAudio play (onVideo play p) in
      setIsPlaying (negb (isPlaying p)) p
  end.

(** The drift threshold [0.05] of [handleTimeUpdate]. *)
Definition driftTolerance : num := Fin (5 # 100).

(** [handleTimeUpdate], the [onTimeUpdate] handler of the video element.
    Assigning a finite value to [currentTime] is a plain field write: every
    value the handlers assign from a fraction in [0,1] lies inside the
    track, where the element keeps it as it is.  Assigning [NaN] or an
    infinity raises a [TypeError]; here it is the handler's last statement,
    so the player is left as it was before the assignment. *)
Definition handleTimeUpdate (p : Player) : Player :=
  match videoRef p with
  | None => p
  | Some v =>
      let current := currentTime v in
      let dur := duration v in
      let p := setDuration dur p in
      let p :=
        if gt dur (Fin 0)
        then setProgress (mul (div current dur) (Fin 100)) p
        else p in
      match audioRef p, truthyStr (audioUrl p) with
      | Some a, true =>
          let videoPercent := div current dur in
          let audioPercent := div (currentTime a) (duration a) in
          if gt (abs (sub videoPercent audioPercent)) driftTolerance
          then
            if isFinite (duration a)
            then
              let audioTime := mul videoPercent (duration a) in
              if isFinite audioTime
              then onAudio (set_currentTime audioTime) p
              else p
            else p
          else p
      | _, _ => p
      end
  end.

(** [handleSeek]; [pct] is [parseFloat(e.target.value)].  [currentTime] is
    a restricted double: assigning [NaN] or an infinity raises a [TypeError],
    which ends the handler there, so that the writes that follow are
    skipped.  The result is the player as the handler leaves it, whether it
    returns or throws. *)
Definition handleSeek (pct : num) (p : Player) : Player :=
  match videoRef p with
  | None => p
  | Some v =>
      let seekTime := mul (div pct (Fin 100)) (duration v) in
      if isFinite seekTime
      then
        let p := onVideo (set_currentTime seekTime) p in
        match audioRef p with
        | Some a =>
            if isFinite (duration a)
            then
              let audioTime := mul (div pct (Fin 100)) (duration a) in
              if isFinite audioTime
              then setProgress pct (onAudio (set_currentTime audioTime) p)
              else p
            else setProgress pct p
        | None => setProgress pct p
        end
      else p
  end.

(** [handleVideoEnded]. *)
Definition handleVideoEnded (p : Player) : Player :=
  let p := setIsPlaying false p in
  onAudio (set_currentTime (Fin 0)) (onAudio pause p).

(** [toggleMute]. *)
Definition toggleMute (p : Player) : Player :=
  match videoRef p with
  | None => p
  | Some v =>
      let p := onVideo (set_muted (negb (muted v))) p in
      setIsMuted (negb (isMuted p)) p
  end.

(** ** The capture session *)

(** [AudioContext.state], as far as the component drives it. *)
Inductive AudioContextState : Type :=
| Running
| Closed.

(** [MediaRecorder.state]: ['inactive'] or ['recording']. *)
Inductive RecorderState : Type :=
| Inactive
| Recording.

Inductive SourceState : Type :=
| Unscheduled
| Started
| Stopped.

(** The [AudioBufferSourceNode] that plays the decoded dub. *)
Record BufferSource : Type := mkSource {
  sourceRate : num;
  sourceState : SourceState
}.

(** The objects and locals that [handleDownloadVideo] creates and that its
    callbacks close over.  [stopEvent] tells that a [stop] event is queued on
    the recorder, [animationId] that a frame callback is requested,
    [checkEnd] that the interval timer is set; [downloads] lists the file
    names handed to the browser. *)
Record Capture : Type := mkCapture {
  audioContext : option AudioContextState;
  audioSource : option BufferSource;
  mediaRecorder : option RecorderState;
  stopEvent : bool;
  animationId : bool;
  checkEnd : bool;
  framesDrawn : nat;
  startTime : Z;
  recordingDurationSec : num;
  downloads : list string
}.

Definition noCapture : Capture :=
  mkCapture None None None false false false 0 0 NaN [].

Definition set_audioContext (x : option AudioContextState) (c : Capture) :=
  mkCapture x (audioSource c) (mediaRecorder c) (stopEvent c) (animationId c)
            (checkEnd c) (framesDrawn c) (startTime c)
            (recordingDurationSec c) (downloads c).

Definition set_audioSource (x : option BufferSource) (c : Capture) :=
  mkCapture (audioContext c) x (mediaRecorder c) (stopEvent c) (animationId c)
            (checkEnd c) (framesDrawn c) (startTime c)
            (recordingDurationSec c) (downloads c).

Definition set_mediaRecorder (x : option RecorderState) (c : Capture) :=
  mkCapture (audioContext c) (audioSource c) x (stopEvent c) (animationId c)
            (checkEnd c) (framesDrawn c) (startTime c)
            (recordingDurationSec c) (downloads c).

Definition set_stopEvent (x : bool) (c : Capture) :=
  mkCapture (audioContext c) (audioSource c) (mediaRecorder c) x
            (animationId c) (checkEnd c) (framesDrawn c) (startTime c)
            (recordingDurationSec c) (downloads c).

Definition set_animationId (x : bool) (c : Capture) :=
  mkCapture (audioContext c) (audioSource c) (mediaRecorder c) (stopEvent c)
            x (checkEnd c) (framesDrawn c) (startTime c)
            (recordingDurationSec c) (downloads c).

Definition set_checkEnd (x : bool) (c : Capture) :=
  mkCapture (audioContext c) (audioSource c) (mediaRecorder c) (stopEvent c)
            (animationId c) x (framesDrawn c) (startTime c)
            (recordingDurationSec c) (downloads c).

Definition set_framesDrawn (x : nat) (c : Capture) :=
  mkCapture (audioContext c) (audioSource c) (mediaRecorder c) (stopEvent c)
            (animationId c) (checkEnd c) x (startTime c)
            (recordingDurationSec c) (downloads c).

Definition set_startTime (x : Z) (c : Capture) :=
  mkCapture (audioContext c) (audioSource c) (mediaRecorder c) (stopEvent c)
            (animationId c) (checkEnd c) (framesDrawn c) x
            (recordingDurationSec c) (downloads c).

Definition set_recordingDurationSec (x : num) (c : Capture) :=
  mkCapture (audioContext c) (audioSource c) (mediaRecorder c) (stopEvent c)
            (animationId c) (checkEnd c) (framesDrawn c) (startTime c)
            x (downloads c).

Definition set_downloads (x : list string) (c : Capture) :=
  mkCapture (audioContext c) (audioSource c) (mediaRecorder c) (stopEvent c)
            (animationId c) (checkEnd c) (framesDrawn c) (startTime c)
            (recordingDurationSec c) x.

(** The component together with the capture objects. *)
Record World : Type := mkWorld {
  player : Player;
  capture : Capture
}.

Definition onPlayer (f : Player -> Player) (w : World) : World :=
  mkWorld (f (player w)) (capture w).

Definition onCapture (f : Capture -> Capture) (w : World) : World :=
  mkWorld (player w) (f (capture w)).

(** What the host does with the requests of one capture: whether
    [fetch(audioUrl)] and [decodeAudioData] fulfil or reject, whether the
    [MediaRecorder] constructor accepts the requested container, and the
    value of [Date.now()] when the recording starts. *)
Record Host : Type := mkHost {
  fetchFulfils : bool;
  decodeFulfils : bool;
  recorderSupported : bool;
  now : Z
}.

Inductive Rejection : Type :=
| FetchError
| DecodeError
| NotSupportedError.

(** An [async] body: it runs on the world and either resolves or rejects;
    the writes made before a rejection stay. *)
Inductive Settled (A : Type) : Type :=
| Resolved (a : A)
| Rejected (e : Rejection).

Arguments Resolved {A} a.
Arguments Rejected {A} e.

Definition Async (A : Type) : Type := World -> Settled A * World.

Definition ret {A} (a : A) : Async A := fun w => (Resolved a, w).

Definition bind {A B} (m : Async A) (k : A -> Async B) : Async B :=
  fun w =>
    match m w with
    | (Resolved a, w') => k a w'
    | (Rejected e, w') => (Rejected e, w')
    end.

Definition throw {A} (e : Rejection) : Async A := fun w => (Rejected e, w).

Definition exec (f : World -> World) : Async unit := fun w => (Resolved tt, f w).

Definition await (fulfils : bool) (e : Rejection) : Async unit :=
  if fulfils then ret tt else throw e.

Notation "m ;; k" := (bind m (fun _ => k))
  (at level 61, right associativity).

(** [mediaRecorder.onstop]. *)
Definition onstop (w : World) : World :=
  let name := ("dubbed_" ++ fileName (player w) ++ ".webm")%string in
  let w := onCapture (fun c => set_downloads (name :: downloads c) c) w in
  let w := onPlayer (setIsRecording false) w in
  let w :=
    onCapture (fun c =>
      set_audioContext (option_map (fun _ => Closed) (audioContext c)) c) w in
  let w := onPlayer (onVideo (set_currentTime (Fin 0))) w in
  onPlayer (onAudio (set_currentTime (Fin 0))) w.

(** [drawFrame]: one frame is drawn, and another callback is requested while
    the recorder is recording. *)
Definition drawFrame (w : World) : World :=
  let w := onCapture (fun c => set_framesDrawn (S (framesDrawn c)) c) w in
  match mediaRecorder (capture w) with
  | Some Recording => onCapture (set_animationId true) w
  | _ => onCapture (set_animationId false) w
  end.

(** The poll period, in milliseconds: [setInterval(..., 100)]. *)
Definition pollInterval : Z := 100.

(** [handleDownloadVideo]. *)
Definition handleDownloadVideo (h : Host) : Async unit :=
  fun w =>
    match videoRef (player w), audioRef (player w),
          truthyStr (audioUrl (player w)) with
    | Some _, Some _, true =>
        (exec (onPlayer (setIsRecording true)) ;;
         exec (onPlayer (setIsPlaying false)) ;;
         exec (onPlayer (onVideo pause)) ;;
         exec (onPlayer (onAudio pause)) ;;
         exec (onPlayer (onVideo (set_currentTime (Fin 0)))) ;;
         exec (onPlayer (onAudio (set_currentTime (Fin 0)))) ;;
         fun w =>
           match canvasRef (player w), videoRef (player w) with
           | Some _, Some v =>
               let rates := playbackRates (player w) in
               (exec (onPlayer (set_canvasRef
                        (Some (mkCanvas (videoWidth v) (videoHeight v))))) ;;
                exec (onCapture (set_audioContext (Some Running))) ;;
                await (fetchFulfils h) FetchError ;;
                await (decodeFulfils h) DecodeError ;;
                exec (onCapture (set_audioSource
                        (Some (mkSource (audio rates) Unscheduled)))) ;;
                await (recorderSupported h) NotSupportedError ;;
                exec (onCapture (set_mediaRecorder (Some Inactive))) ;;
                exec (onCapture (set_mediaRecorder (Some Recording))) ;;
                exec (onCapture (set_audioSource
                        (Some (mkSource (audio rates) Started)))) ;;
                exec (onPlayer (onVideo play)) ;;
                exec (onPlayer (onVideo (set_playbackRate (video rates)))) ;;
                exec drawFrame ;;
                exec (onCapture (set_recordingDurationSec
                        (div (duration v) (video rates)))) ;;
                exec (onCapture (set_startTime (now h))) ;;
                exec (onCapture (set_checkEnd true))) w
           | _, _ => (Resolved tt, w)
           end) w
    | _, _, _ => (Resolved tt, w)
    end.

(** [(Date.now() - startTime) / 1000]. *)
Definition elapsedAt (t : Z) (c : Capture) : num :=
  div (Fin (inject_Z (t - startTime c))) (Fin 1000).

(** The body of the [setInterval] callback, run at [Date.now() = t].
    [mediaRecorder.stop()] on a recorder that is not recording throws, and
    the rest of the callback is then skipped. *)
Definition checkEndTick (t : Z) (w : World) : World :=
  let elapsed := elapsedAt t (capture w) in
  let dur := recordingDurationSec (capture w) in
  let w :=
    onPlayer (setRecordingProgress (mul (div elapsed dur) (Fin 100))) w in
  if ge elapsed dur
  then
    let w := onCapture (set_checkEnd false) w in
    let w := onCapture (set_animationId false) w in
    match mediaRecorder (capture w) with
    | Some Recording =>
        let w := onCapture (set_mediaRecorder (Some Inactive)) w in
        let w := onCapture (set_stopEvent true) w in
        let w :=
          onCapture (fun c =>
            set_audioSource
              (option_map (fun s => mkSource (sourceRate s) Stopped)
                          (audioSource c)) c) w in
        onPlayer (onVideo pause) w
    | _ => w
    end
  else w.

(** The event loop delivers a queued [stop] event to [onstop]. *)
Definition deliverStop (w : World) : World :=
  if stopEvent (capture w)
  then onstop (onCapture (set_stopEvent false) w)
  else w.

(** The poll: the timer fires at the successive readings [ticks] of
    [Date.now()] for as long as it is set; after each callback the queued
    events are delivered. *)
Fixpoint runPoll (ticks : list Z) (w : World) : World :=
  match ticks with
  | [] => w
  | t :: rest =>
      if checkEnd (capture w)
      then runPoll rest (deliverStop (checkEndTick t w))
      else w
  end.

(** The value of [recordingProgress] after each callback of the poll. *)
Fixpoint progressTrace (ticks : list Z) (w : World) : list num :=
  match ticks with
  | [] => []
  | t :: rest =>
      if checkEnd (capture w)
      then
        let w' := checkEndTick t w in
        recordingProgress (player w') :: progressTrace rest (deliverStop w')
      else []
  end.


(** ** Statements used by the theorems *)

(** [a] and [b] are finite and differ by at most [eps]. *)
Definition within (eps : Q) (a b : num) : Prop :=
  match a, b with
  | Fin x, Fin y => Qabs (x - y) <= eps
  | _, _ => False
  end.

(** Metadata of both tracks is loaded: the test of [syncDurations]. *)
Definition metadataLoaded (v a : MediaElement) : bool :=
  truthy (duration v) && truthy (duration a)
  && notInfinity (duration v) && notInfinity (duration a).

(** The rate policy as the specification words it for the longer track:
    after [syncDurations] no rate is below 1.0, and the longer track keeps
    rate 1.0. *)
Definition longerTrackKeepsPace (p : Player) : Prop :=
  match videoRef p, audioRef p with
  | Some v, Some a =>
      let r := playbackRates (syncDurations p) in
      ge (video r) (Fin 1) = true /\ ge (audio r) (Fin 1) = true /\
      (gt (duration a) (duration v) = true -> audio r === Fin 1) /\
      (gt (duration v) (duration a) = true -> video r === Fin 1)
  | _, _ => True
  end.

(** The rate pair as the specification describes it: after [syncDurations]
    both rates are 1.0 when the durations differ by at most [eps], and
    otherwise exactly one of the two rates is at least 1.0. *)
Definition oneRateAtLeastOne (eps : Q) (p : Player) : Prop :=
  match videoRef p, audioRef p with
  | Some v, Some a =>
      let r := playbackRates (syncDurations p) in
      (within eps (duration v) (duration a) ->
       video r === Fin 1 /\ audio r === Fin 1) /\
      (~ within eps (duration v) (duration a) ->
       xorb (ge (video r) (Fin 1)) (ge (audio r) (Fin 1)) = true)
  | _, _ => True
  end.

(** A media element with known duration [d], at rest at position [t]. *)
Definition track (d t : Q) : MediaElement :=
  mkMedia (Fin d) (Fin t) (Fin 1) false true 640 360.

(** A mounted player with a dub: a video of [vd] seconds and a dub of [ad]
    seconds, both at position 0. *)
Definition preview (vd ad : Q) : Player :=
  mount (Some "blob:dub"%string) "clip"%string
        (Some (track vd 0)) (Some (track ad 0)) (Some (mkCanvas 300 150)).

(** What of a media element bears on timing: everything but [muted] (and
    the picture size). *)
Definition timing (m : MediaElement) : num * num * num * bool :=
  (duration m, currentTime m, playbackRate m, paused m).

(** A host on which every request of a capture succeeds; the recording
    starts at [Date.now() = 0]. *)
Definition okHost : Host := mkHost true true true 0.

(** A host on which [fetch(audioUrl)] rejects. *)
Definition offlineHost : Host := mkHost false true true 0.

(** The synchronised 10 s video / 20 s dub pair, no export under way. *)
Definition syncedPair : World :=
  mkWorld (syncDurations (preview 10 20)) noCapture.

(** An export of the synchronised 10 s video / 20 s dub pair, right after
    [handleDownloadVideo] has started the recording. *)
Definition exportStarted : World :=
  snd (handleDownloadVideo okHost syncedPair).

(** The same export one second of video later: the video element, which the
    capture plays, is at 1 s; the dub element is paused at 0. *)
Definition exportAfterOneSecond : Player :=
  onVideo (set_currentTime (Fin 1)) (player exportStarted).

(** The drift corrector as the specification describes it, on a tick with
    both tracks present: the dub position is rewritten to
    [videoPercent * audioDuration] when the two fractions differ by more than
    the tolerance, it is left alone otherwise, and it is left alone while the
    player is paused. *)
Definition driftCorrectorAsSpecified (p : Player) : Prop :=
  match videoRef p, audioRef p with
  | Some v, Some a =>
      let videoPercent := div (currentTime v) (duration v) in
      let audioPercent := div (currentTime a) (duration a) in
      let drift := abs (sub videoPercent audioPercent) in
      (gt drift driftTolerance = true ->
       audioRef (handleTimeUpdate p) =
       Some (set_currentTime (mul videoPercent (duration a)) a)) /\
      (gt drift driftTolerance = false ->
       audioRef (handleTimeUpdate p) = audioRef p) /\
      (isPlaying p = false -> audioRef (handleTimeUpdate p) = audioRef p)
  | _, _ => True
  end.

(** Seconds from [start] to the reading [t] of [Date.now()]. *)
Definition secs (t start : Z) : Q := inject_Z (t - start) / 1000.

(** Successive readings of [Date.now()] by a poll of fixed period: a reading
    is not before the previous one and at most one period after it. *)
Fixpoint paced (prev : Z) (ticks : list Z) : Prop :=
  match ticks with
  | [] => True
  | t :: rest => (prev <= t <= prev + pollInterval)%Z /\ paced t rest
  end.



(** A capture that is recording, due to last [T] seconds from [start]. *)
Definition recording (start : Z) (T : Q) (w : World) : Prop :=
  checkEnd (capture w) = true /\
  mediaRecorder (capture w) = Some Recording /\
  stopEvent (capture w) = false /\
  startTime (capture w) = start /\
  recordingDurationSec (capture w) = Fin T.

(** What the stopping callback leaves: timer cleared, frame request
    cancelled, recorder inactive with its [stop] event queued, buffer source
    stopped, video element paused. *)
Definition stopped (w : World) : Prop :=
  checkEnd (capture w) = false /\
  animationId (capture w) = false /\
  mediaRecorder (capture w) = Some Inactive /\
  stopEvent (capture w) = true /\
  option_map sourceState (audioSource (capture w)) = Some Stopped /\
  option_map paused (videoRef (player w)) = Some true.

(** What [onstop] leaves: the file handed over, the audio context closed,
    both tracks back at 0, [isRecording] cleared. *)
Definition cleanedUp (w : World) : Prop :=
  audioContext (capture w) = Some Closed /\
  option_map currentTime (videoRef (player w)) = Some (Fin 0) /\
  option_map currentTime (audioRef (player w)) = Some (Fin 0) /\
  isRecording (player w) = false.






(** The readings of a poll that fires exactly every [pollInterval]
    milliseconds, [n] times, from [start]. *)
Definition everyInterval (start : Z) (n : nat) : list Z :=
  map (fun k => (start + pollInterval * Z.of_nat k)%Z) (seq 1 n).

(** An export of a 10.05 s video with a 20 s dub, right after
    [handleDownloadVideo] has started the recording. *)
Definition exportOddLength : World :=
  snd (handleDownloadVideo okHost
         (mkWorld (syncDurations (preview (1005 # 100) 20)) noCapture)).

(** The player once [handleDownloadVideo] has paused and rewound the two
    elements [v] and [a] and sized the canvas. *)
Definition primed (v a : MediaElement) (p : Player) : Player :=
  set_canvasRef (Some (mkCanvas (videoWidth v) (videoHeight v)))
    (set_audioRef (Some (set_currentTime (Fin 0) (pause a)))
       (set_videoRef (Some (set_currentTime (Fin 0) (pause v)))
          (setIsPlaying false (setIsRecording true p)))).

(** Muting as the specification describes it: once the dub's metadata is
    loaded (its duration is known, not zero and not [Infinity]), the
    [loadedmetadata] listener leaves the video element muted. *)
Definition mutedOnceDubLoaded (p : Player) : Prop :=
  match videoRef p, audioRef p with
  | Some v, Some a =>
      truthyStr (audioUrl p) = true ->
      truthy (duration a) && notInfinity (duration a) = true ->
      option_map muted (videoRef (syncDurations p)) = Some true
  | _, _ => True
  end.

(** A mounted player whose 20 s dub has its metadata loaded and whose video
    has the duration [d]: [NaN] before the video's own metadata arrives,
    [Infinity] for a video of unbounded length. *)
Definition dubLoadedFirst (d : num) : Player :=
  mount (Some "blob:dub"%string) "clip"%string
        (Some (mkMedia d (Fin 0) (Fin 1) false true 0 0))
        (Some (track 20 0)) (Some (mkCanvas 300 150)).

(** What [HTMLMediaElement.duration] can report: [NaN] while it is unknown,
    [Infinity] for an unbounded stream, or a finite time that is not
    negative. *)
Definition mediaDuration (x : num) : Prop :=
  match x with
  | Fin d => 0 <= d
  | PInf | NaN => True
  | NInf => False
  end.

(** The running code computes in binary64 where the handlers above compute
    exactly.  Statements about a threshold or an equality leave this margin
    for the rounding of the quotients and products involved. *)
Definition roundingMargin : Q := 1 # 1000000000.

(** ** Binary64

    The formulas of the handlers in the binary64 arithmetic of the running
    code, for the inputs at which its rounding shows. *)

Module Binary64.
Import PrimFloat.
#[local] Set Warnings "-inexact-float".

(** [duration / rate], the time a track of length [d] takes at [rate]. *)
Definition playedLength (d rate : float) : float := d / rate.

(** The drift test of [handleTimeUpdate]: [drift > 0.05]. *)
Definition driftAboveTolerance (vt vd at' ad : float) : bool :=
  ltb 0.05 (abs (vt / vd - at' / ad)).

(** The [progress] that [handleTimeUpdate] stores on the tick after
    [handleSeek pct] on a video of [vd] seconds. *)
Definition progressAfterSeek (pct vd : float) : float :=
  pct / 100 * vd / vd * 100.

End Binary64.

(** ** The batch queue ([App]) and the Gemini service

    The [App] component keeps the list of uploaded videos and runs each one
    through [translateVideoContent] and [generateSpeech].  What the browser
    and the remote service answer is given by a [Services] record: the
    helpers of [utils/audioUtils] ([fileToBase64], [decodeBase64],
    [decodeAudioData], [audioBufferToWavUrl]), the request
    [ai.models.generateContent] and the environment variable [API_KEY].
    Strings are byte strings (UTF-8). *)

Module App.

Inductive ItemStatus : Type :=
| PENDING
| UPLOADING
| TRANSLATING
| GENERATING_AUDIO
| COMPLETED
| ERROR.

(** ['pt-BR' | 'es-419']. *)
Inductive Language : Type :=
| pt_BR
| es_419.

(** The part of a [File] the code reads. *)
Record File : Type := mkFile {
  name : string;
  type : string
}.

Record ProcessedResult : Type := mkResult {
  originalTranscript : option string;
  translatedText : option string;
  audioUrl : option string
}.

Record BatchItem : Type := mkItem {
  id : string;
  file : File;
  videoUrl : string;
  status : ItemStatus;
  result : option ProcessedResult;
  error : option string;
  progress : option num
}.

Record DubbingConfig : Type := mkConfig {
  targetLanguage : Language;
  voiceName : string
}.

Definition VOICES (l : Language) : list string :=
  match l with
  | pt_BR => ["Puck"; "Charon"; "Kore"; "Fenrir"; "Zephyr"]
  | es_419 => ["Puck"; "Charon"; "Kore"; "Fenrir"; "Zephyr"]
  end%string.

Definition VOICE_SAMPLES (l : Language) : string :=
  match l with
  | pt_BR => "Olá, este é um exemplo da minha voz."
  | es_419 => "Hola, este es un ejemplo de mi voz."
  end%string.

(** [{ ...i, status }]. *)
Definition setStatus (st : ItemStatus) (i : BatchItem) : BatchItem :=
  mkItem (id i) (file i) (videoUrl i) st (result i) (error i) (progress i).

(** The [useState] cells of [App]. *)
Record State : Type := mkState {
  batchItems : list BatchItem;
  selectedItemId : option string;
  isProcessingBatch : bool;
  processingError : string;
  previewingVoice : option string;
  config : DubbingConfig
}.

Definition setBatchItems (l : list BatchItem) (s : State) : State :=
  mkState l (selectedItemId s) (isProcessingBatch s) (processingError s)
          (previewingVoice s) (config s).

Definition setSelectedItemId (x : option string) (s : State) : State :=
  mkState (batchItems s) x (isProcessingBatch s) (processingError s)
          (previewingVoice s) (config s).

Definition setIsProcessingBatch (b : bool) (s : State) : State :=
  mkState (batchItems s) (selectedItemId s) b (processingError s)
          (previewingVoice s) (config s).

Definition setProcessingError (e : string) (s : State) : State :=
  mkState (batchItems s) (selectedItemId s) (isProcessingBatch s) e
          (previewingVoice s) (config s).

Definition setPreviewingVoice (v : option string) (s : State) : State :=
  mkState (batchItems s) (selectedItemId s) (isProcessingBatch s)
          (processingError s) v (config s).

(** The initial state of [App]. *)
Definition initial : State :=
  mkState [] None false "" None (mkConfig pt_BR "Kore").

(** A thrown value on which a property can be read: an [Error], another
    object, a string; [message] is what [e.message] reads. *)
Inductive Thrown : Type :=
| thrown (message : option string).

(** [new Error(m)]. *)
Definition Error (m : string) : Thrown := thrown (Some m).

(** The [TypeError] raised by reading a property of [null] or [undefined];
    [m] stands for the engine's message, which no code here reads. *)
Definition TypeError (m : string) : Thrown := thrown (Some m).

(** What a [catch] receives, a thrown value or the reason of a rejection:
    a value of the kind above, or [null] or [undefined], on which
    [e.message] itself throws. *)
Inductive Reason : Type :=
| object (e : Thrown)
| nullish.

Coercion object : Thrown >-> Reason.

(** How a call ends: with a value, or by throwing (rejecting). *)
Inductive Outcome (A : Type) : Type :=
| Ok (a : A)
| Throws (e : Reason).

Arguments Ok {A} a.
Arguments Throws {A} e.

(** The two requests sent through [ai.models.generateContent]. *)
Inductive Request : Type :=
| TranslateRequest (model mimeType data text : string)
| SpeechRequest (model text voiceName : string).

(** What the code reads of a response: [response.text] and
    [response.candidates?.[0]?.content?.parts?.[0]?.inlineData?.data]. *)
Record Response : Type := mkResponse {
  text : option string;
  inlineData : option string
}.

(** A decoded [AudioBuffer]. *)
Inductive AudioBuffer : Type :=
| pcm (samples : list Byte.byte).

Record Services : Type := mkServices {
  API_KEY : option string;
  fileToBase64 : File -> Outcome string;
  generateContent : Request -> Outcome Response;
  decodeBase64 : string -> list Byte.byte;
  decodeAudioData : list Byte.byte -> Outcome AudioBuffer;
  audioBufferToWavUrl : AudioBuffer -> string;
  playFulfils : string -> bool
}.

(** [getAiClient]: the client is there when [API_KEY] is set. *)
Definition getAiClient (sv : Services) : Outcome unit :=
  if truthyStr (API_KEY sv)
  then Ok tt
  else Throws (Error "API Key is missing in environment variables.").

Definition languageName (l : Language) : string :=
  match l with
  | pt_BR => "Brazilian Portuguese"
  | es_419 => "Latin American Spanish"
  end.

(** The prompt of [translateVideoContent]. *)
Definition prompt (l : Language) : string :=
  ("
    Analyze the audio in this video file. 
    The audio might be in English or Spanish.
    Your task is to:
    1. Listen to the speech.
    2. Translate the spoken content into " ++ languageName l ++ ".
    3. Return ONLY the translated text as a continuous script suitable for dubbing.
    Do not include speaker labels, timestamps, or markdown formatting like ** or *. Just the raw text to be spoken.
  ")%string.

(** [translateVideoContent]; its [catch] logs and rethrows. *)
Definition translateVideoContent (sv : Services)
           (base64Video mimeType : string) (l : Language) : Outcome string :=
  match getAiClient sv with
  | Throws e => Throws e
  | Ok _ =>
      match generateContent sv
              (TranslateRequest "gemini-2.5-flash" mimeType base64Video
                                (prompt l)) with
      | Throws e => Throws e
      | Ok response =>
          if truthyStr (text response)
          then match text response with
               | Some t => Ok t
               | None => Throws (Error "Translation failed / 翻译失败")
               end
          else Throws (Error "Translation failed / 翻译失败")
      end
  end.

(** The component state together with the number of audio contexts that
    are open in the page. *)
Record World : Type := mkWorld {
  state : State;
  openAudioContexts : nat
}.

Definition onState (f : State -> State) (w : World) : World :=
  mkWorld (f (state w)) (openAudioContexts w).

(** [generateSpeech]; its [catch] logs and rethrows.  The audio context is
    created once the response carries audio and is closed after the WAV URL
    is built. *)
Definition generateSpeech (sv : Services) (txt voice : string)
           (contexts : nat) : Outcome string * nat :=
  match getAiClient sv with
  | Throws e => (Throws e, contexts)
  | Ok _ =>
      match generateContent sv
              (SpeechRequest "gemini-2.5-flash-preview-tts" txt voice) with
      | Throws e => (Throws e, contexts)
      | Ok response =>
          if truthyStr (inlineData response)
          then match inlineData response with
               | Some base64Audio =>
                   let contexts := S contexts in
                   let audioBytes := decodeBase64 sv base64Audio in
                   match decodeAudioData sv audioBytes with
                   | Throws e => (Throws e, contexts)
                   | Ok audioBuffer =>
                       let wavUrl := audioBufferToWavUrl sv audioBuffer in
                       (Ok wavUrl, pred contexts)
                   end
               | None =>
                   (Throws (Error "No audio returned / 未返回音频数据"), contexts)
               end
          else (Throws (Error "No audio returned / 未返回音频数据"), contexts)
      end
  end.

(** [previewVoiceModel]. *)
Definition previewVoiceModel (sv : Services) (txt voice : string)
           (contexts : nat) : Outcome string * nat :=
  generateSpeech sv txt voice contexts.

(** One file picked in the file input, with the id drawn for it by
    [Math.random().toString(36).substr(2, 9)] and the object URL made for
    it. *)
Record Picked : Type := mkPicked {
  pickedFile : File;
  randomId : string;
  objectUrl : string
}.

Definition newItem (k : Picked) : BatchItem :=
  mkItem (randomId k) (pickedFile k) (objectUrl k) PENDING None None None.

(** [handleFilesChange]; [files] is [event.target.files]. *)
Definition handleFilesChange (files : option (list Picked)) (s : State)
  : State :=
  match files with
  | Some (k :: ks) =>
      let newItems := map newItem (k :: ks) in
      let s' := setBatchItems (batchItems s ++ newItems) s in
      if negb (truthyStr (selectedItemId s))
      then match newItems with
           | first :: _ => setSelectedItemId (Some (id first)) s'
           | [] => s'
           end
      else s'
  | _ => s
  end.

(** [selectedItemId === id]. *)
Definition isSelected (x : string) (s : State) : bool :=
  match selectedItemId s with
  | Some y => String.eqb y x
  | None => false
  end.

(** [removeBatchItem]. *)
Definition removeBatchItem (x : string) (s : State) : State :=
  let s' :=
    setBatchItems
      (filter (fun item => negb (String.eqb (id item) x)) (batchItems s)) s in
  if isSelected x s then setSelectedItemId None s' else s'.

(** [selectedItem]: [batchItems.find(i => i.id === selectedItemId)]. *)
Definition selectedItem (s : State) : option BatchItem :=
  match selectedItemId s with
  | Some y => find (fun i => String.eqb (id i) y) (batchItems s)
  | None => None
  end.

(** The [audioUrl] prop handed to [VideoPlayer]:
    [selectedItem.result?.audioUrl || null]. *)
Definition audioUrlProp (i : BatchItem) : option string :=
  match result i with
  | Some r => if truthyStr (audioUrl r) then audioUrl r else None
  | None => None
  end.

(** [updateStatus] of [processItem]. *)
Definition updateStatus (item : BatchItem) (st : ItemStatus) (s : State)
  : State :=
  setBatchItems
    (map (fun i => if String.eqb (id i) (id item) then setStatus st i else i)
         (batchItems s)) s.

(** [e.message || "Unknown error"]. *)
Definition messageOf (e : Thrown) : string :=
  match e with
  | thrown m => if truthyStr m
                then match m with Some x => x | None => "Unknown error" end
                else "Unknown error"
  end.

(** The item returned by the [catch] of [processItem]. *)
Definition failed (item : BatchItem) (e : Thrown) : BatchItem :=
  mkItem (id item) (file item) (videoUrl item) ERROR (result item)
         (Some (messageOf e)) (progress item).

(** The item returned at the end of the [try] of [processItem]. *)
Definition completed (item : BatchItem) (txt url : string) : BatchItem :=
  mkItem (id item) (file item) (videoUrl item) COMPLETED
         (Some (mkResult None (Some txt) (Some url)))
         (error item) (progress item).

(** The [catch] of [processItem]: it returns the failed item, unless the
    reason is [null] or [undefined], where reading [e.message] throws and
    [processItem] rejects. *)
Definition caught (item : BatchItem) (e : Reason) : Outcome BatchItem :=
  match e with
  | object e => Ok (failed item e)
  | nullish =>
      Throws (TypeError "Cannot read properties of undefined (reading 'message')")
  end.

(** [processItem]; [cfg] is the [config] of the render that started the
    batch. *)
Definition processItem (sv : Services) (cfg : DubbingConfig)
           (item : BatchItem) (w : World) : Outcome BatchItem * World :=
  let w := onState (updateStatus item UPLOADING) w in
  match fileToBase64 sv (file item) with
  | Throws e => (caught item e, w)
  | Ok base64Video =>
      let w := onState (updateStatus item TRANSLATING) w in
      match translateVideoContent sv base64Video (type (file item))
                                  (targetLanguage cfg) with
      | Throws e => (caught item e, w)
      | Ok translated =>
          let w := onState (updateStatus item GENERATING_AUDIO) w in
          match generateSpeech sv translated (voiceName cfg)
                               (openAudioContexts w) with
          | (Throws e, n) => (caught item e, mkWorld (state w) n)
          | (Ok url, n) =>
              let w := mkWorld (state w) n in
              let w := onState (updateStatus item COMPLETED) w in
              (Ok (completed item translated url), w)
          end
      end
  end.

(** The replacement [prev.map(i => i.id === item.id ? resultItem : i)]. *)
Definition replaceItem (item resultItem : BatchItem) (l : list BatchItem)
  : list BatchItem :=
  map (fun i => if String.eqb (id i) (id item) then resultItem else i) l.

Definition isCompleted (i : BatchItem) : bool :=
  match status i with
  | COMPLETED => true
  | _ => false
  end.

(** The loop of [handleProcessBatch] over the items of the render that
    started it; a rejection of [processItem] is not caught and ends it. *)
Fixpoint processEach (sv : Services) (cfg : DubbingConfig)
         (items : list BatchItem) (w : World) : Outcome unit * World :=
  match items with
  | [] => (Ok tt, w)
  | item :: rest =>
      if isCompleted item
      then processEach sv cfg rest w
      else
        match processItem sv cfg item w with
        | (Ok resultItem, w) =>
            let w :=
              onState (fun s =>
                setBatchItems (replaceItem item resultItem (batchItems s)) s)
                w in
            processEach sv cfg rest w
        | (Throws e, w) => (Throws e, w)
        end
  end.

(** [handleProcessBatch]: the world when the promise it returns settles.
    When the loop rejects, so does the handler, and the statements after the
    loop are not run. *)
Definition handleProcessBatch (sv : Services) (w : World) : World :=
  let items := batchItems (state w) in
  let cfg := config (state w) in
  let w := onState (setIsProcessingBatch true) w in
  let w := onState (setProcessingError "") w in
  match processEach sv cfg items w with
  | (Ok _, w) => onState (setIsProcessingBatch false) w
  | (Throws _, w) => w
  end.

(** Whether the promise of [handleProcessBatch] is fulfilled or rejected. *)
Definition handleProcessBatchOutcome (sv : Services) (w : World)
  : Outcome unit :=
  fst (processEach sv (config (state w)) (batchItems (state w))
         (onState (setProcessingError "")
            (onState (setIsProcessingBatch true) w))).

(** [handlePreviewVoice]; the [ended] event of the preview is delivered
    later, to [onPreviewEnded]. *)
Definition handlePreviewVoice (sv : Services) (voice : string) (w : World)
  : World :=
  if truthyStr (previewingVoice (state w))
  then w
  else
    let lang := targetLanguage (config (state w)) in
    let w := onState (setPreviewingVoice (Some voice)) w in
    match previewVoiceModel sv (VOICE_SAMPLES lang) voice
                            (openAudioContexts w) with
    | (Throws e, n) => onState (setPreviewingVoice None) (mkWorld (state w) n)
    | (Ok url, n) =>
        let w := mkWorld (state w) n in
        if playFulfils sv url
        then w
        else onState (setPreviewingVoice None) w
    end.

(** [audio.onended] of a preview. *)
Definition onPreviewEnded (w : World) : World :=
  onState (setPreviewingVoice None) w.

(** How [processItem] ends for [item]: the item it returns, or the
    rejection. *)
Definition settled (sv : Services) (cfg : DubbingConfig) (item : BatchItem)
  : Outcome BatchItem :=
  fst (processItem sv cfg item (mkWorld initial 0)).

(** No helper and no request rejects with [null] or [undefined]. *)
Definition rejectsWithValues (sv : Services) : Prop :=
  (forall f, fileToBase64 sv f <> Throws nullish) /\
  (forall r, generateContent sv r <> Throws nullish) /\
  (forall bytes, decodeAudioData sv bytes <> Throws nullish).

End App.

(** A page in which every helper succeeds and the service answers every
    request with a script and with audio; [key] is [API_KEY]. *)
Definition demoServices (key : option string) : App.Services :=
  App.mkServices key
    (fun _ => App.Ok "AAAA"%string)
    (fun _ => App.Ok (App.mkResponse (Some "Bom dia"%string)
                                     (Some "UklGRg"%string)))
    (fun _ => [])
    (fun bytes => App.Ok (App.pcm bytes))
    (fun _ => "blob:wav"%string)
    (fun _ => true).

(** The same page, except that reading a file rejects with [undefined]. *)
Definition unreadableFiles : App.Services :=
  App.mkServices (Some "key"%string)
    (fun _ => App.Throws App.nullish)
    (fun _ => App.Ok (App.mkResponse (Some "Bom dia"%string)
                                     (Some "UklGRg"%string)))
    (fun _ => [])
    (fun bytes => App.Ok (App.pcm bytes))
    (fun _ => "blob:wav"%string)
    (fun _ => true).

(** A queue of two picked videos, none processed yet. *)
Definition demoQueue : App.World :=
  App.mkWorld
    (App.handleFilesChange
       (Some [App.mkPicked (App.mkFile "a.mp4" "video/mp4") "k3x9" "blob:a";
              App.mkPicked (App.mkFile "b.mp4" "video/mp4") "p0q1" "blob:b"])
       App.initial)
    0.

(** ** Numbers: basic facts *)

(** Closed goals about the concrete players and exports are settled by
    evaluation. *)
Ltac evaluate := vm_compute; reflexivity.

Ltac evaluate_or_lra := solve [evaluate | lra].

Lemma Qlt_bool_iff x y : Qlt_bool x y = true <-> x < y.
Proof.
  unfold Qlt_bool. rewrite negb_true_iff, <- not_true_iff_false, Qle_bool_iff.
  split; [apply Qnot_le_lt | apply Qlt_not_le].
Qed.

Lemma Qeq_bool_false x y : ~ x == y -> Qeq_bool x y = false.
Proof.
  intros H. apply not_true_iff_false. now rewrite Qeq_bool_iff.
Qed.

Lemma Qlt_bool_false x y : y <= x -> Qlt_bool x y = false.
Proof.
  intros H. apply not_true_iff_false. rewrite Qlt_bool_iff. lra.
Qed.

Lemma gt_Fin x y : gt (Fin x) (Fin y) = true <-> y < x.
Proof. apply Qlt_bool_iff. Qed.

Lemma ge_Fin x y : ge (Fin x) (Fin y) = true <-> y <= x.
Proof. apply Qle_bool_iff. Qed.

Lemma div_Fin x y : ~ y == 0 -> div (Fin x) (Fin y) = Fin (x / y).
Proof. intros H. simpl. now rewrite (Qeq_bool_false _ _ H). Qed.

Lemma truthy_positive x : 0 < x -> truthy (Fin x) = true.
Proof.
  intros H. simpl. rewrite Qeq_bool_false; [reflexivity | lra].
Qed.

Lemma Qdiv_gt_1 x y : 0 < y -> y < x -> 1 < x / y.
Proof.
  intros Hy Hxy. apply Qlt_shift_div_l; lra.
Qed.

Lemma Qdiv_ge_1 x y : 0 < y -> y <= x -> 1 <= x / y.
Proof.
  intros Hy Hxy. apply Qle_shift_div_l; lra.
Qed.

Lemma Qdiv_same x : ~ x == 0 -> x / x == 1.
Proof. intros H. now field. Qed.

Lemma Qdiv_div_cancel x y : 0 < x -> 0 < y -> x / (x / y) == y.
Proof. intros Hx Hy. field. split; lra. Qed.

Lemma Qdiv_pos x y : 0 < x -> 0 < y -> 0 < x / y.
Proof. intros Hx Hy. apply Qlt_shift_div_l; lra. Qed.

(** ** Sync logic: the rates *)

Section Rates.

Variables vd ad : Q.
Hypothesis vd_pos : 0 < vd.
Hypothesis ad_pos : 0 < ad.

Lemma computeRates_audio_longer :
  vd < ad -> computeRates (Fin vd) (Fin ad) = mkRates (Fin 1) (Fin (ad / vd)).
Proof.
  intros H. unfold computeRates.
  rewrite (proj2 (gt_Fin ad vd) H), div_Fin; [reflexivity | lra].
Qed.

Lemma computeRates_audio_not_longer :
  ad <= vd -> computeRates (Fin vd) (Fin ad) = mkRates (Fin (vd / ad)) (Fin 1).
Proof.
  intros H. unfold computeRates.
  replace (gt (Fin ad) (Fin vd)) with false
    by (symmetry; apply Qlt_bool_false; exact H).
  rewrite div_Fin; [reflexivity | lra].
Qed.

Lemma computeRates_cases :
  (vd < ad /\ computeRates (Fin vd) (Fin ad) = mkRates (Fin 1) (Fin (ad / vd)))
  \/ (ad <= vd /\
      computeRates (Fin vd) (Fin ad) = mkRates (Fin (vd / ad)) (Fin 1)).
Proof.
  destruct (Qlt_le_dec vd ad) as [H | H].
  - left. split; [exact H | now apply computeRates_audio_longer].
  - right. split; [exact H | now apply computeRates_audio_not_longer].
Qed.

Lemma computeRates_equalises :
  let r := computeRates (Fin vd) (Fin ad) in
  div (Fin vd) (video r) === div (Fin ad) (audio r).
Proof.
  destruct computeRates_cases as [[H E] | [H E]]; rewrite E; cbn [video audio].
  - assert (0 < ad / vd) by now apply Qdiv_pos.
    rewrite !div_Fin by lra. simpl. rewrite Qdiv_div_cancel by assumption.
    now field.
  - assert (0 < vd / ad) by now apply Qdiv_pos.
    rewrite !div_Fin by lra. simpl. rewrite Qdiv_div_cancel by assumption.
    now field.
Qed.

End Rates.

Lemma eqv_within (eps : Q) (a b : num) :
  0 <= eps -> isFinite a = true -> a === b -> within eps a b.
Proof.
  intros Heps Hfin Hab.
  destruct a, b; cbn [within eqv isFinite] in *; try easy.
  apply Qabs_Qle_condition. rewrite Hab. split; lra.
Qed.

(** ** Sync logic: [syncDurations] on a player whose metadata is loaded *)

Section Synced.

Variable p : Player.
Variables v a : MediaElement.
Variables vd ad : Q.
Hypothesis video_present : videoRef p = Some v.
Hypothesis audio_present : audioRef p = Some a.
Hypothesis dub_url : truthyStr (audioUrl p) = true.
Hypothesis video_duration : duration v = Fin vd.
Hypothesis audio_duration : duration a = Fin ad.
Hypothesis vd_pos : 0 < vd.
Hypothesis ad_pos : 0 < ad.

Lemma metadataLoaded_positive : metadataLoaded v a = true.
Proof.
  unfold metadataLoaded. rewrite video_duration, audio_duration.
  now rewrite !truthy_positive.
Qed.

Lemma syncDurations_loaded :
  syncDurations p =
  let r := computeRates (Fin vd) (Fin ad) in
  setIsMuted true
    (onVideo (set_muted true)
       (onAudio (set_playbackRate (audio r))
          (onVideo (set_playbackRate (video r))
             (setPlaybackRates r p)))).
Proof.
  generalize metadataLoaded_positive. unfold syncDurations, metadataLoaded.
  rewrite video_present, audio_present, dub_url. intros ->.
  now rewrite video_duration, audio_duration.
Qed.

Lemma syncDurations_rates :
  playbackRates (syncDurations p) = computeRates (Fin vd) (Fin ad).
Proof. now rewrite syncDurations_loaded. Qed.

Lemma syncDurations_video :
  videoRef (syncDurations p) =
  Some (set_muted true
          (set_playbackRate (video (computeRates (Fin vd) (Fin ad))) v)).
Proof.
  rewrite syncDurations_loaded. cbn. now rewrite video_present.
Qed.

Lemma syncDurations_audio :
  audioRef (syncDurations p) =
  Some (set_playbackRate (audio (computeRates (Fin vd) (Fin ad))) a).
Proof.
  rewrite syncDurations_loaded. cbn. now rewrite audio_present.
Qed.

(** C1.  When both tracks have a positive finite duration, [syncDurations]
    gives the two elements (and the [playbackRates] state) rates under which
    both tracks last equally long: [videoDuration / videoRate] and
    [audioDuration / audioRate] are finite and differ by at most 1e-3 s (in
    exact arithmetic they are equal). *)
Theorem syncDurations_equal_length :
  exists v' a',
    videoRef (syncDurations p) = Some v' /\
    audioRef (syncDurations p) = Some a' /\
    playbackRate v' = video (playbackRates (syncDurations p)) /\
    playbackRate a' = audio (playbackRates (syncDurations p)) /\
    duration v' = duration v /\ duration a' = duration a /\
    div (duration v') (playbackRate v') === div (duration a') (playbackRate a') /\
    within (1 # 1000) (div (duration v') (playbackRate v'))
                      (div (duration a') (playbackRate a')).
Proof.
  eexists _, _.
  split; [apply syncDurations_video |].
  split; [apply syncDurations_audio |].
  rewrite syncDurations_rates. cbn [playbackRate duration set_muted set_playbackRate].
  do 4 (split; [reflexivity |]).
  rewrite video_duration, audio_duration.
  pose proof (computeRates_equalises vd ad vd_pos ad_pos) as E. cbv zeta in E.
  split; [exact E |].
  apply eqv_within; [lra | | exact E].
  destruct (computeRates_cases vd ad vd_pos ad_pos) as [[H R] | [H R]];
    rewrite R; cbn [video].
  - reflexivity.
  - rewrite div_Fin; [reflexivity |].
    pose proof (Qdiv_pos vd ad vd_pos ad_pos). lra.
Qed.

(** C2 (amended).  When both tracks have a positive finite duration, neither
    rate set by [syncDurations] is below 1.0: only the longer track is
    accelerated (its rate is above 1.0) and the shorter track keeps rate
    exactly 1.0; with equal durations both rates are 1.0. *)
Theorem syncDurations_accelerates_longer :
  let r := playbackRates (syncDurations p) in
  ge (video r) (Fin 1) = true /\ ge (audio r) (Fin 1) = true /\
  (vd < ad -> video r = Fin 1 /\ gt (audio r) (Fin 1) = true) /\
  (ad < vd -> audio r = Fin 1 /\ gt (video r) (Fin 1) = true) /\
  (ad == vd -> video r === Fin 1 /\ audio r = Fin 1).
Proof.
  rewrite syncDurations_rates. cbv zeta.
  destruct (computeRates_cases vd ad vd_pos ad_pos) as [[H R] | [H R]];
    rewrite R; cbn [video audio].
  - pose proof (Qdiv_gt_1 ad vd vd_pos H) as G.
    split; [apply ge_Fin; lra |]. split; [apply ge_Fin; lra |].
    split; [intros _; split; [reflexivity | apply gt_Fin; exact G] |].
    split; intros L; lra.
  - pose proof (Qdiv_ge_1 vd ad ad_pos H) as G.
    split; [apply ge_Fin; lra |]. split; [apply ge_Fin; lra |].
    split; [intros L; lra |].
    split.
    + intros L. split; [reflexivity |]. apply gt_Fin.
      apply Qdiv_gt_1; assumption.
    + intros E. split; [| reflexivity]. cbn [eqv]. rewrite E.
      apply Qdiv_same. lra.
Qed.

(** C3 (amended).  When both tracks have a positive finite duration, exactly
    one of the two rates set by [syncDurations] is above 1.0 and the other is
    exactly 1.0, unless the two durations are equal, in which case both rates
    are 1.0.  No tolerance is applied: the durations are compared as they
    are. *)
Theorem syncDurations_one_rate_above_one :
  let r := playbackRates (syncDurations p) in
  (vd == ad -> video r === Fin 1 /\ audio r === Fin 1) /\
  (~ vd == ad ->
   xorb (gt (video r) (Fin 1)) (gt (audio r) (Fin 1)) = true /\
   (video r = Fin 1 \/ audio r = Fin 1)).
Proof.
  rewrite syncDurations_rates. cbv zeta.
  destruct (computeRates_cases vd ad vd_pos ad_pos) as [[H R] | [H R]];
    rewrite R; cbn [video audio eqv].
  - split; [intros E; lra |]. intros _.
    rewrite (proj2 (gt_Fin (ad / vd) 1) (Qdiv_gt_1 ad vd vd_pos H)).
    split; [reflexivity | now left].
  - split.
    + intros E. split; [| reflexivity]. rewrite E. apply Qdiv_same. lra.
    + intros N. assert (L : ad < vd).
      { destruct (Qlt_le_dec ad vd) as [L | L]; [exact L |].
        exfalso. apply N. now apply Qle_antisym. }
      rewrite (proj2 (gt_Fin (vd / ad) 1) (Qdiv_gt_1 vd ad ad_pos L)).
      split; [reflexivity | now right].
Qed.

End Synced.

(** Scenarios A, B and C of the rate computation. *)
Example scenario_A :
  playbackRates (syncDurations (preview 10 20)) = mkRates (Fin 1) (Fin (20 / 10)).
Proof. reflexivity. Qed.

Example scenario_B :
  playbackRates (syncDurations (preview 20 10)) = mkRates (Fin (20 / 10)) (Fin 1).
Proof. reflexivity. Qed.

Example scenario_C :
  playbackRates (syncDurations (preview 12 12)) = mkRates (Fin (12 / 12)) (Fin 1).
Proof. reflexivity. Qed.

Lemma syncDurations_equal_length_witness :
  exists v' a',
    videoRef (syncDurations (preview 10 20)) = Some v' /\
    audioRef (syncDurations (preview 10 20)) = Some a' /\
    playbackRate v' = video (playbackRates (syncDurations (preview 10 20))) /\
    playbackRate a' = audio (playbackRates (syncDurations (preview 10 20))) /\
    duration v' = duration (track 10 0) /\
    duration a' = duration (track 20 0) /\
    div (duration v') (playbackRate v') === div (duration a') (playbackRate a') /\
    within (1 # 1000) (div (duration v') (playbackRate v'))
                      (div (duration a') (playbackRate a')).
Proof.
  apply (syncDurations_equal_length
           (preview 10 20) (track 10 0) (track 20 0) 10 20);
    solve [reflexivity | lra].
Defined.

(** C2, as worded for the longer track, fails on Scenario A: the dub is the
    longer track and its rate becomes 2.0. *)
Lemma longerTrackKeepsPace_fails : ~ longerTrackKeepsPace (preview 10 20).
Proof.
  intros (_ & _ & H & _). specialize (H eq_refl). vm_compute in H.
  discriminate H.
Qed.

Lemma syncDurations_accelerates_longer_witness :
  let r := playbackRates (syncDurations (preview 10 20)) in
  ge (video r) (Fin 1) = true /\ ge (audio r) (Fin 1) = true /\
  (10 < 20 -> video r = Fin 1 /\ gt (audio r) (Fin 1) = true) /\
  (20 < 10 -> audio r = Fin 1 /\ gt (video r) (Fin 1) = true) /\
  (20 == 10 -> video r === Fin 1 /\ audio r = Fin 1).
Proof.
  apply (syncDurations_accelerates_longer
           (preview 10 20) (track 10 0) (track 20 0) 10 20);
    solve [reflexivity | lra].
Defined.

(** C3, as worded, fails twice: on Scenario A both rates are at least 1.0,
    and durations 12 s and 12.0005 s, which differ by less than 1e-3 s, do
    not give two rates of 1.0. *)
Lemma oneRateAtLeastOne_fails :
  ~ oneRateAtLeastOne (1 # 1000) (preview 10 20) /\
  ~ oneRateAtLeastOne (1 # 1000) (preview 12 (120005 # 10000)).
Proof.
  split.
  - intros [_ H]. assert (F : xorb true true = true); [| discriminate F].
    apply H. vm_compute. intros N. apply N. reflexivity.
  - intros [H _]. assert (W : within (1 # 1000) (Fin 12) (Fin (120005 # 10000))).
    { vm_compute. discriminate. }
    destruct (H W) as [_ E]. vm_compute in E. discriminate E.
Qed.

Lemma syncDurations_one_rate_above_one_witness :
  let r := playbackRates (syncDurations (preview 10 20)) in
  (10 == 20 -> video r === Fin 1 /\ audio r === Fin 1) /\
  (~ 10 == 20 ->
   xorb (gt (video r) (Fin 1)) (gt (audio r) (Fin 1)) = true /\
   (video r = Fin 1 \/ audio r = Fin 1)).
Proof.
  apply (syncDurations_one_rate_above_one
           (preview 10 20) (track 10 0) (track 20 0) 10 20);
    solve [reflexivity | lra].
Defined.

(** ** Seeking *)

Section Seek.

Variable p : Player.
Variables v a : MediaElement.
Variables vd ad pct : Q.
Hypothesis video_present : videoRef p = Some v.
Hypothesis audio_present : audioRef p = Some a.
Hypothesis video_duration : duration v = Fin vd.
Hypothesis audio_duration : duration a = Fin ad.
Hypothesis vd_pos : 0 < vd.
Hypothesis ad_pos : 0 < ad.
Hypothesis pct_range : 0 <= pct <= 100.

Lemma handleSeek_loaded :
  handleSeek (Fin pct) p =
  setProgress (Fin pct)
    (onAudio (set_currentTime (Fin (pct / 100 * ad)))
       (onVideo (set_currentTime (Fin (pct / 100 * vd))) p)).
Proof.
  unfold handleSeek. rewrite video_present, video_duration. cbv zeta.
  rewrite div_Fin by discriminate. cbn [mul isFinite].
  cbn [onVideo set_videoRef audioRef].
  rewrite audio_present, audio_duration. cbn [mul isFinite].
  reflexivity.
Qed.

(** C4.  With both tracks present and of positive finite duration, a seek to
    [pct] in [0,100] moves each track to [pct/100] of its own duration: the
    video to [pct/100 * videoDuration], the dub to [pct/100 * audioDuration];
    both positions lie inside their track, and both tracks are then at the
    same fraction [pct/100] of their length.  (On the 10 s / 20 s pair,
    [pct = 50] gives 5 s and 10 s.) *)
Theorem handleSeek_percent_of_each_track :
  exists v' a',
    videoRef (handleSeek (Fin pct) p) = Some v' /\
    audioRef (handleSeek (Fin pct) p) = Some a' /\
    currentTime v' = Fin (pct / 100 * vd) /\
    currentTime a' = Fin (pct / 100 * ad) /\
    duration v' = Fin vd /\ duration a' = Fin ad /\
    0 <= pct / 100 * vd <= vd /\ 0 <= pct / 100 * ad <= ad /\
    div (currentTime v') (duration v') === Fin (pct / 100) /\
    div (currentTime a') (duration a') === Fin (pct / 100) /\
    progress (handleSeek (Fin pct) p) = Fin pct.
Proof.
  rewrite handleSeek_loaded.
  exists (set_currentTime (Fin (pct / 100 * vd)) v),
         (set_currentTime (Fin (pct / 100 * ad)) a).
  cbn [setProgress onAudio onVideo set_audioRef set_videoRef videoRef audioRef
       progress option_map].
  rewrite video_present, audio_present.
  cbn [option_map set_currentTime currentTime duration].
  rewrite video_duration, audio_duration.
  do 6 (split; [reflexivity |]).
  assert (F : 0 <= pct / 100 <= 1).
  { split; [apply Qle_shift_div_l | apply Qle_shift_div_r]; lra. }
  split; [split; nra |]. split; [split; nra |].
  rewrite !div_Fin by lra. cbn [eqv].
  split; [| split; [| reflexivity]]; field; lra.
Qed.

End Seek.

(** Without a dub element the seek moves the video alone. *)
Lemma handleSeek_without_dub (p : Player) (v : MediaElement) (pct vd : Q) :
  videoRef p = Some v -> audioRef p = None -> duration v = Fin vd ->
  handleSeek (Fin pct) p =
  setProgress (Fin pct)
    (onVideo (set_currentTime (Fin (pct / 100 * vd))) p).
Proof.
  intros V A D. unfold handleSeek. rewrite V, D. cbv zeta.
  rewrite div_Fin by discriminate. cbn [mul isFinite].
  cbn [onVideo set_videoRef audioRef]. now rewrite A.
Qed.

(** Scenario E: [seek(50)] on the synchronised 10 s / 20 s pair. *)
Example scenario_E :
  option_map currentTime (videoRef (handleSeek (Fin 50) (syncDurations (preview 10 20))))
    = Some (Fin (50 / 100 * 10)) /\
  option_map currentTime (audioRef (handleSeek (Fin 50) (syncDurations (preview 10 20))))
    = Some (Fin (50 / 100 * 20)) /\
  50 / 100 * 10 == 5 /\ 50 / 100 * 20 == 10.
Proof. repeat split. Qed.

Lemma handleSeek_percent_of_each_track_witness :
  exists v' a',
    videoRef (handleSeek (Fin 50) (syncDurations (preview 10 20))) = Some v' /\
    audioRef (handleSeek (Fin 50) (syncDurations (preview 10 20))) = Some a' /\
    currentTime v' = Fin (50 / 100 * 10) /\
    currentTime a' = Fin (50 / 100 * 20) /\
    duration v' = Fin 10 /\ duration a' = Fin 20 /\
    0 <= 50 / 100 * 10 <= 10 /\ 0 <= 50 / 100 * 20 <= 20 /\
    div (currentTime v') (duration v') === Fin (50 / 100) /\
    div (currentTime a') (duration a') === Fin (50 / 100) /\
    progress (handleSeek (Fin 50) (syncDurations (preview 10 20))) = Fin 50.
Proof.
  apply (handleSeek_percent_of_each_track
           (syncDurations (preview 10 20))
           (set_muted true (set_playbackRate (Fin 1) (track 10 0)))
           (set_playbackRate (Fin (20 / 10)) (track 20 0)) 10 20 50);
    solve [reflexivity | lra].
Defined.

(** ** Drift correction *)

Lemma handleTimeUpdate_ignores_isPlaying (b : bool) (p : Player) :
  handleTimeUpdate (setIsPlaying b p) = setIsPlaying b (handleTimeUpdate p).
Proof.
  destruct p as [url name [v |] [a |] c pl mu pr du ra re rp];
    unfold handleTimeUpdate;
    cbn -[gt abs sub div mul isFinite truthyStr driftTolerance];
    try reflexivity;
    destruct (gt (duration v) (Fin 0));
    cbn -[gt abs sub div mul isFinite truthyStr driftTolerance];
    try reflexivity;
    destruct (truthyStr url); try reflexivity;
    destruct (gt _ driftTolerance); try reflexivity;
    destruct (isFinite (duration a)); try reflexivity;
    destruct (isFinite (mul _ _)); reflexivity.
Qed.

Lemma handleTimeUpdate_video (p : Player) :
  videoRef (handleTimeUpdate p) = videoRef p.
Proof.
  destruct p as [url name [v |] [a |] c pl mu pr du ra re rp];
    unfold handleTimeUpdate;
    cbn -[gt abs sub div mul isFinite truthyStr driftTolerance];
    try reflexivity;
    destruct (gt (duration v) (Fin 0));
    cbn -[gt abs sub div mul isFinite truthyStr driftTolerance];
    try reflexivity;
    destruct (truthyStr url); try reflexivity;
    destruct (gt _ driftTolerance); try reflexivity;
    destruct (isFinite (duration a)); try reflexivity;
    destruct (isFinite (mul _ _)); reflexivity.
Qed.

Section Drift.

Variable p : Player.
Variables v a : MediaElement.
Variables vd ad vt at' : Q.
Hypothesis video_present : videoRef p = Some v.
Hypothesis audio_present : audioRef p = Some a.
Hypothesis dub_url : truthyStr (audioUrl p) = true.
Hypothesis video_duration : duration v = Fin vd.
Hypothesis audio_duration : duration a = Fin ad.
Hypothesis video_position : currentTime v = Fin vt.
Hypothesis audio_position : currentTime a = Fin at'.
Hypothesis vd_pos : 0 < vd.
Hypothesis ad_pos : 0 < ad.

Lemma handleTimeUpdate_audio :
  audioRef (handleTimeUpdate p) =
  if Qlt_bool (5 # 100) (Qabs (vt / vd - at' / ad))
  then Some (set_currentTime (Fin (vt / vd * ad)) a)
  else Some a.
Proof.
  unfold handleTimeUpdate. rewrite video_present. cbv zeta.
  rewrite video_duration, video_position.
  rewrite (proj2 (gt_Fin vd 0) vd_pos).
  cbn [setProgress setDuration audioRef audioUrl].
  rewrite audio_present, dub_url, audio_duration, audio_position.
  rewrite !div_Fin by lra. cbn [sub abs driftTolerance gt isFinite mul].
  destruct (Qlt_bool (5 # 100) (Qabs (vt / vd - at' / ad)));
    cbn [onAudio setProgress setDuration audioRef set_audioRef];
    rewrite audio_present; reflexivity.
Qed.

(** C5 (amended).  On a position-update tick with both tracks present, a dub
    URL, positive finite durations and both positions inside their tracks,
    [handleTimeUpdate] never touches the video element.  When the drift
    [|videoPosition/videoDuration - audioPosition/audioDuration|] is above
    0.05 by more than [roundingMargin] it sets the dub position to
    [(videoPosition/videoDuration) * audioDuration], which differs from the
    old position; when the drift is below 0.05 by more than the margin it
    leaves the dub element alone; within the margin of 0.05, where the
    rounding of the two quotients decides the comparison, it does one of the
    two.  The handler does not look at the play/pause state: it acts the
    same whether [isPlaying] is set or not. *)
Theorem handleTimeUpdate_corrects_drift :
  0 <= vt <= vd -> 0 <= at' <= ad ->
  videoRef (handleTimeUpdate p) = videoRef p /\
  ((5 # 100) + roundingMargin < Qabs (vt / vd - at' / ad) ->
   audioRef (handleTimeUpdate p) =
     Some (set_currentTime (Fin (vt / vd * ad)) a) /\
   ~ vt / vd * ad == at') /\
  (Qabs (vt / vd - at' / ad) < (5 # 100) - roundingMargin ->
   audioRef (handleTimeUpdate p) = audioRef p) /\
  (audioRef (handleTimeUpdate p) = audioRef p \/
   audioRef (handleTimeUpdate p) =
     Some (set_currentTime (Fin (vt / vd * ad)) a)) /\
  (forall b,
     handleTimeUpdate (setIsPlaying b p) = setIsPlaying b (handleTimeUpdate p)).
Proof.
  intros _ _.
  split; [apply handleTimeUpdate_video |].
  split; [| split; [| split;
                      [| intros b; apply handleTimeUpdate_ignores_isPlaying]]].
  - intros D. unfold roundingMargin in D.
    assert (D' : 5 # 100 < Qabs (vt / vd - at' / ad)) by lra.
    rewrite handleTimeUpdate_audio.
    rewrite (proj2 (Qlt_bool_iff _ _) D'). split; [reflexivity |].
    intros E. assert (Z0 : vt / vd - at' / ad == 0).
    { rewrite <- E. field. lra. }
    rewrite Z0 in D'. vm_compute in D'. discriminate D'.
  - intros D. unfold roundingMargin in D.
    assert (D' : Qabs (vt / vd - at' / ad) <= 5 # 100) by lra.
    rewrite handleTimeUpdate_audio, audio_present.
    now rewrite (Qlt_bool_false _ _ D').
  - rewrite handleTimeUpdate_audio, audio_present.
    destruct (Qlt_bool _ _); [right | left]; reflexivity.
Qed.

End Drift.

(** The player of [exportAfterOneSecond]: paused ([isPlaying] is false, the
    dub element is paused at 0), while the capture plays the video. *)
Example exportAfterOneSecond_state :
  isPlaying exportAfterOneSecond = false /\
  isRecording exportAfterOneSecond = true /\
  option_map timing (videoRef exportAfterOneSecond)
    = Some (Fin 10, Fin 1, Fin 1, false) /\
  option_map timing (audioRef exportAfterOneSecond)
    = Some (Fin 20, Fin 0, Fin (20 / 10), true).
Proof. vm_compute. repeat split. Qed.

(** C5, as worded, fails while paused: during an export the player is paused
    and the capture plays the video; one second into the 10 s video the drift
    is 0.1 and the tick moves the paused dub from 0 to 2 s. *)
Lemma driftCorrectorAsSpecified_fails :
  ~ driftCorrectorAsSpecified exportAfterOneSecond.
Proof.
  assert (V : videoRef exportAfterOneSecond
              = Some (mkMedia (Fin 10) (Fin 1) (Fin 1) true false 640 360))
    by evaluate.
  assert (A : audioRef exportAfterOneSecond
              = Some (mkMedia (Fin 20) (Fin 0) (Fin (20 / 10)) false true
                              640 360))
    by evaluate.
  assert (P : isPlaying exportAfterOneSecond = false)
    by evaluate.
  assert (M : option_map currentTime
                (audioRef (handleTimeUpdate exportAfterOneSecond))
              = Some (Fin (1 / 10 * 20)))
    by evaluate.
  unfold driftCorrectorAsSpecified. rewrite V, A.
  intros (_ & _ & H). rewrite (H P) in M. discriminate M.
Qed.

Lemma handleTimeUpdate_corrects_drift_witness :
  videoRef (handleTimeUpdate exportAfterOneSecond)
    = videoRef exportAfterOneSecond /\
  ((5 # 100) + roundingMargin < Qabs (1 / 10 - 0 / 20) ->
   audioRef (handleTimeUpdate exportAfterOneSecond) =
     Some (set_currentTime (Fin (1 / 10 * 20))
             (pause (set_playbackRate (Fin (20 / 10)) (track 20 0)))) /\
   ~ 1 / 10 * 20 == 0) /\
  (Qabs (1 / 10 - 0 / 20) < (5 # 100) - roundingMargin ->
   audioRef (handleTimeUpdate exportAfterOneSecond)
     = audioRef exportAfterOneSecond) /\
  (audioRef (handleTimeUpdate exportAfterOneSecond)
     = audioRef exportAfterOneSecond \/
   audioRef (handleTimeUpdate exportAfterOneSecond) =
     Some (set_currentTime (Fin (1 / 10 * 20))
             (pause (set_playbackRate (Fin (20 / 10)) (track 20 0))))) /\
  (forall b,
     handleTimeUpdate (setIsPlaying b exportAfterOneSecond)
       = setIsPlaying b (handleTimeUpdate exportAfterOneSecond)).
Proof.
  apply (handleTimeUpdate_corrects_drift exportAfterOneSecond
           (set_currentTime (Fin 1)
              (play (set_muted true (set_playbackRate (Fin 1) (track 10 0)))))
           (pause (set_playbackRate (Fin (20 / 10)) (track 20 0)))
           10 20 1 0);
    evaluate_or_lra.
Defined.

(** ** Rounding in the running code *)

(** At video position 5.5 s of 10 s and dub position 10 s of 20 s the drift
    is 0.05 and the exact comparison [drift > 0.05] is false. *)
Example drift_at_the_tolerance :
  gt (abs (sub (div (Fin (55 # 10)) (Fin 10)) (div (Fin 10) (Fin 20))))
     driftTolerance = false.
Proof. reflexivity. Qed.

Module Binary64Examples.
Import PrimFloat.
#[local] Set Warnings "-inexact-float".

(** In binary64 the same difference is 0.050000000000000044, above the
    double nearest to 0.05: the tick moves the dub. *)
Example drift_at_the_tolerance_rounded :
  Binary64.driftAboveTolerance 5.5 10 10 20 = true.
Proof. vm_compute. reflexivity. Qed.

(** A 17 s video on a 7 s dub: the stored rate 17/7 is rounded and the
    video then takes 7.0000000000000009 s, not 7 s, well within 1e-3. *)
Example played_length_rounded :
  eqb (Binary64.playedLength 17 (17 / 7)) 7 = false /\
  ltb (abs (Binary64.playedLength 17 (17 / 7) - 7)) 0.001 = true.
Proof. split; vm_compute; reflexivity. Qed.

(** The tick after a seek to 55 % of a 10 s video stores
    55.000000000000007, not 55, well within 1e-6. *)
Example progress_after_seek_rounded :
  eqb (Binary64.progressAfterSeek 55 10) 55 = false /\
  ltb (abs (Binary64.progressAfterSeek 55 10 - 55)) 0.000001 = true.
Proof. split; vm_compute; reflexivity. Qed.

End Binary64Examples.

(** ** Muting *)

Lemma syncDurations_mutes (p : Player) (v a : MediaElement) :
  videoRef p = Some v -> audioRef p = Some a ->
  truthyStr (audioUrl p) = true -> metadataLoaded v a = true ->
  option_map muted (videoRef (syncDurations p)) = Some true /\
  isMuted (syncDurations p) = true.
Proof.
  intros V A U L. unfold syncDurations. rewrite V, A, U.
  unfold metadataLoaded in L. rewrite L. cbn. rewrite V. now split.
Qed.

Lemma syncDurations_not_loaded (p : Player) (v a : MediaElement) :
  videoRef p = Some v -> audioRef p = Some a ->
  truthyStr (audioUrl p) = true -> metadataLoaded v a = false ->
  syncDurations p = p.
Proof.
  intros V A U L. unfold syncDurations. rewrite V, A, U.
  unfold metadataLoaded in L. now rewrite L.
Qed.

(** C9 (amended).  [toggleMute] writes nothing but the video element's
    [muted] flag and the [isMuted] state cell: in every player state the
    duration, position, rate and paused flag of the video element, the whole
    dub element, [isPlaying], [playbackRates] and every other state cell are
    the same before and after; with a video element present both flags are
    negated.  The forced mute depends on both tracks: when [syncDurations]
    finds the metadata of the video and of the dub loaded (both durations
    known, not zero and not [Infinity]) it mutes the video element and sets
    [isMuted]; when either is missing it changes nothing, so a loaded dub
    alone does not mute the video. *)
Theorem toggleMute_touches_only_mute (p : Player) :
  option_map timing (videoRef (toggleMute p)) = option_map timing (videoRef p) /\
  audioRef (toggleMute p) = audioRef p /\
  isPlaying (toggleMute p) = isPlaying p /\
  playbackRates (toggleMute p) = playbackRates p /\
  progress (toggleMute p) = progress p /\
  stDuration (toggleMute p) = stDuration p /\
  isRecording (toggleMute p) = isRecording p /\
  recordingProgress (toggleMute p) = recordingProgress p /\
  canvasRef (toggleMute p) = canvasRef p /\
  audioUrl (toggleMute p) = audioUrl p /\
  fileName (toggleMute p) = fileName p /\
  (forall v, videoRef p = Some v ->
     videoRef (toggleMute p) = Some (set_muted (negb (muted v)) v) /\
     isMuted (toggleMute p) = negb (isMuted p)) /\
  (videoRef p = None -> toggleMute p = p) /\
  (forall v a,
     videoRef p = Some v -> audioRef p = Some a ->
     truthyStr (audioUrl p) = true ->
     (metadataLoaded v a = true ->
      option_map muted (videoRef (syncDurations p)) = Some true /\
      isMuted (syncDurations p) = true) /\
     (metadataLoaded v a = false -> syncDurations p = p)).
Proof.
  split; [| split; [| split; [| split; [| split; [| split; [| split;
    [| split; [| split; [| split; [| split; [| split; [| split]]]]]]]]]]]];
    try (unfold toggleMute; destruct (videoRef p); reflexivity).
  - unfold toggleMute. destruct (videoRef p) as [v |] eqn:V; [| now rewrite V].
    cbn. now rewrite V.
  - intros v V. unfold toggleMute. rewrite V. cbn. now rewrite V.
  - intros V. unfold toggleMute. now rewrite V.
  - intros v a V A U. split; intros L.
    + now apply (syncDurations_mutes p v a).
    + now apply (syncDurations_not_loaded p v a).
Qed.

(** C9, as worded, fails while the video's own duration is missing: with the
    20 s dub loaded and a video of unbounded length ([Infinity]) the test of
    [syncDurations] fails and the video element stays unmuted. *)
Lemma mutedOnceDubLoaded_fails :
  ~ mutedOnceDubLoaded (dubLoadedFirst PInf).
Proof.
  assert (M : option_map muted (videoRef (syncDurations (dubLoadedFirst PInf)))
              = Some false)
    by evaluate.
  unfold mutedOnceDubLoaded. cbn [dubLoadedFirst mount videoRef audioRef].
  intros H. rewrite (H eq_refl eq_refl) in M. discriminate M.
Qed.

(** The same before the video's metadata has arrived ([NaN]): the listener
    fired by the dub's [loadedmetadata] changes nothing. *)
Example dub_loaded_before_video :
  syncDurations (dubLoadedFirst NaN) = dubLoadedFirst NaN /\
  option_map muted (videoRef (syncDurations (dubLoadedFirst NaN)))
    = Some false.
Proof. split; evaluate. Qed.

Lemma toggleMute_touches_only_mute_witness :
  videoRef (toggleMute (syncDurations (preview 10 20)))
    = Some (set_muted false
              (set_muted true (set_playbackRate (Fin 1) (track 10 0)))) /\
  isMuted (toggleMute (syncDurations (preview 10 20))) = false /\
  playbackRates (toggleMute (syncDurations (preview 10 20)))
    = playbackRates (syncDurations (preview 10 20)) /\
  option_map muted (videoRef (syncDurations (preview 10 20))) = Some true /\
  isMuted (syncDurations (preview 10 20)) = true /\
  syncDurations (dubLoadedFirst PInf) = dubLoadedFirst PInf.
Proof.
  pose proof (toggleMute_touches_only_mute (syncDurations (preview 10 20)))
    as (_ & _ & _ & R & _ & _ & _ & _ & _ & _ & _ & M & _ & _).
  pose proof (toggleMute_touches_only_mute (preview 10 20))
    as (_ & _ & _ & _ & _ & _ & _ & _ & _ & _ & _ & _ & _ & S).
  pose proof (toggleMute_touches_only_mute (dubLoadedFirst PInf))
    as (_ & _ & _ & _ & _ & _ & _ & _ & _ & _ & _ & _ & _ & N).
  destruct (M _ eq_refl) as [M1 M2].
  destruct (S _ _ eq_refl eq_refl eq_refl) as [S' _].
  destruct (S' eq_refl) as [S1 S2].
  destruct (N _ _ eq_refl eq_refl eq_refl) as [_ N'].
  exact (conj M1 (conj M2 (conj R (conj S1 (conj S2 (N' eq_refl)))))).
Defined.

(** ** The export guard *)

(** C10.  When the dub URL is missing or empty, or the video element or the
    dub element is absent, [handleDownloadVideo] resolves at once and leaves
    the whole world as it was: no state cell is written, no element is
    paused or moved, no audio context, recorder or timer is created. *)
Theorem handleDownloadVideo_guard (h : Host) (w : World) :
  videoRef (player w) = None \/ audioRef (player w) = None \/
  truthyStr (audioUrl (player w)) = false ->
  handleDownloadVideo h w = (Resolved tt, w).
Proof.
  unfold handleDownloadVideo.
  intros [E | [E | E]]; rewrite E.
  - reflexivity.
  - now destruct (videoRef (player w)).
  - now destruct (videoRef (player w)), (audioRef (player w)).
Qed.

Lemma handleDownloadVideo_guard_witness :
  handleDownloadVideo okHost
    (mkWorld (mount None "clip" (Some (track 10 0)) None
                    (Some (mkCanvas 300 150))) noCapture)
  = (Resolved tt,
     mkWorld (mount None "clip" (Some (track 10 0)) None
                    (Some (mkCanvas 300 150))) noCapture).
Proof.
  apply handleDownloadVideo_guard. right. left. reflexivity.
Defined.

(** ** The capture session: the poll *)

Lemma secs_start (start : Z) : secs start start == 0.
Proof. unfold secs. rewrite Z.sub_diag. reflexivity. Qed.


Lemma secs_step (start t u : Z) :
  (u <= t + pollInterval)%Z -> secs u start <= secs t start + 1 / 10.
Proof.
  intros H. unfold secs, pollInterval in *.
  assert (I : inject_Z (u - start) <= inject_Z (t - start + 100))
    by (rewrite <- Zle_Qle; lia).
  rewrite inject_Z_plus in I.
  change (inject_Z 100) with 100 in I.
  apply Qle_shift_div_r; [reflexivity |].
  assert (E : (inject_Z (t - start) / 1000 + 1 / 10) * 1000
              == inject_Z (t - start) + 100) by field.
  rewrite E. exact I.
Qed.

Lemma elapsedAt_secs (t : Z) (c : Capture) :
  elapsedAt t c = Fin (secs t (startTime c)).
Proof. reflexivity. Qed.

Lemma runPoll_inactive (ticks : list Z) (w : World) :
  checkEnd (capture w) = false -> runPoll ticks w = w.
Proof. intros H. destruct ticks; cbn; [| rewrite H]; reflexivity. Qed.


Lemma first_reaching (P : Z -> bool) (ticks : list Z) :
  (exists t, In t ticks /\ P t = true) ->
  exists pre t post,
    ticks = pre ++ t :: post /\
    Forall (fun u => P u = false) pre /\ P t = true.
Proof.
  induction ticks as [| u rest IH]; intros (t & I & Pt); [destruct I |].
  destruct (P u) eqn:Pu.
  - exists [], u, rest. repeat split; [constructor | exact Pu].
  - destruct IH as (pre & t' & post & E & B & R).
    { destruct I as [-> | I]; [congruence |]. now exists t. }
    exists (u :: pre), t', post. rewrite E. repeat split; [| exact R].
    now constructor.
Qed.

Lemma paced_overshoot (start : Z) (T : Q) (pre : list Z) :
  forall prev t post,
    paced prev (pre ++ t :: post) ->
    secs prev start < T ->
    Forall (fun u => Qle_bool T (secs u start) = false) pre ->
    secs t start < T + 1 / 10.
Proof.
  induction pre as [| u pre IH]; intros prev t post P L B.
  - destruct P as [[_ P] _]. pose proof (secs_step start prev t P). lra.
  - destruct P as [_ P]. inversion B as [| ? ? Bu B']; subst.
    apply (IH u t post P); [| exact B'].
    apply Qnot_le_lt. intros N. apply Qle_bool_iff in N. congruence.
Qed.

Section Poll.

Variable start : Z.
Variable T : Q.
Hypothesis T_pos : 0 < T.

Lemma checkEndTick_before (t : Z) (w : World) :
  recording start T w ->
  Qle_bool T (secs t start) = false ->
  checkEndTick t w =
  onPlayer (setRecordingProgress (Fin (secs t start / T * 100))) w.
Proof.
  intros (_ & _ & _ & S & D) B. unfold checkEndTick.
  rewrite elapsedAt_secs, S. cbv zeta. cbn [onPlayer capture].
  rewrite D, div_Fin by lra. cbn [mul ge]. rewrite B. reflexivity.
Qed.

Lemma checkEndTick_reaching (t : Z) (w : World) :
  recording start T w ->
  Qle_bool T (secs t start) = true ->
  checkEndTick t w =
  onPlayer (onVideo pause)
    (onCapture (fun c =>
       set_audioSource
         (option_map (fun s => mkSource (sourceRate s) Stopped)
                     (audioSource c))
         (set_stopEvent true
            (set_mediaRecorder (Some Inactive)
               (set_animationId false (set_checkEnd false c)))))
       (onPlayer (setRecordingProgress (Fin (secs t start / T * 100))) w)).
Proof.
  intros (_ & R & _ & S & D) B. unfold checkEndTick.
  rewrite elapsedAt_secs, S. cbv zeta. cbn [onPlayer capture].
  rewrite D, div_Fin by lra. cbn [mul ge]. rewrite B.
  destruct w as [pw cw]. cbn [capture] in R.
  cbn [onCapture onPlayer capture set_animationId set_checkEnd mediaRecorder].
  rewrite R. reflexivity.
Qed.

Lemma recording_progress (x : num) (w : World) :
  recording start T w -> recording start T (onPlayer (setRecordingProgress x) w).
Proof. intros H. exact H. Qed.

Lemma deliverStop_recording (w : World) :
  recording start T w -> deliverStop w = w.
Proof. intros (_ & _ & E & _). unfold deliverStop. now rewrite E. Qed.

Lemma runPoll_before (pre : list Z) :
  forall w,
    recording start T w ->
    Forall (fun u => Qle_bool T (secs u start) = false) pre ->
    recording start T (runPoll pre w) /\
    capture (runPoll pre w) = capture w /\
    videoRef (player (runPoll pre w)) = videoRef (player w) /\
    audioRef (player (runPoll pre w)) = audioRef (player w) /\
    fileName (player (runPoll pre w)) = fileName (player w) /\
    isRecording (player (runPoll pre w)) = isRecording (player w) /\
    forall rest, runPoll (pre ++ rest) w = runPoll rest (runPoll pre w).
Proof.
  induction pre as [| u pre IH]; intros w R B.
  - repeat split; try reflexivity; apply R.
  - inversion B as [| ? ? Bu B']; subst.
    pose proof R as (A & _). cbn [runPoll app]. rewrite A.
    rewrite (checkEndTick_before u w R Bu).
    rewrite (deliverStop_recording _ (recording_progress _ w R)).
    destruct (IH _ (recording_progress (Fin (secs u start / T * 100)) w R) B')
      as (R' & C' & V' & A' & F' & I' & App).
    repeat split; try apply R'; assumption.
Qed.

End Poll.

(** ** The capture session: the progress report *)

Lemma deliverStop_checkEnd (w : World) :
  checkEnd (capture (deliverStop w)) = checkEnd (capture w).
Proof.
  unfold deliverStop. destruct (stopEvent (capture w)); reflexivity.
Qed.







Section Progress.

Variable start : Z.
Variable T : Q.
Hypothesis T_pos : 0 < T.










End Progress.

(** ** The capture session: starting *)

Section ExportStart.

Variable h : Host.
Variable w0 : World.
Variables v a : MediaElement.
Variable c : Canvas.
Hypothesis video_present : videoRef (player w0) = Some v.
Hypothesis audio_present : audioRef (player w0) = Some a.
Hypothesis dub_url : truthyStr (audioUrl (player w0)) = true.
Hypothesis canvas_present : canvasRef (player w0) = Some c.

Lemma handleDownloadVideo_rejects (e : Rejection) :
  (fetchFulfils h = false /\ e = FetchError) \/
  (fetchFulfils h = true /\ decodeFulfils h = false /\ e = DecodeError) ->
  handleDownloadVideo h w0 =
  (Rejected e,
   mkWorld (primed v a (player w0))
           (set_audioContext (Some Running) (capture w0))).
Proof.
  unfold handleDownloadVideo.
  rewrite video_present, audio_present, dub_url.
  destruct w0 as [[url name vref aref cref pl mu pr du ra re rp] c0].
  destruct h as [f d r n].
  cbn in video_present, audio_present, canvas_present. subst vref aref cref.
  cbn [fetchFulfils decodeFulfils].
  intros [[F E] | (F & D & E)]; subst; vm_compute; reflexivity.
Qed.

Lemma handleDownloadVideo_recorder_rejects :
  fetchFulfils h = true -> decodeFulfils h = true ->
  recorderSupported h = false ->
  handleDownloadVideo h w0 =
  (Rejected NotSupportedError,
   mkWorld (primed v a (player w0))
           (set_audioSource
              (Some (mkSource (audio (playbackRates (player w0))) Unscheduled))
              (set_audioContext (Some Running) (capture w0)))).
Proof.
  unfold handleDownloadVideo.
  rewrite video_present, audio_present, dub_url.
  destruct w0 as [[url name vref aref cref pl mu pr du ra re rp] c0].
  destruct h as [f d r n].
  cbn in video_present, audio_present, canvas_present. subst vref aref cref.
  cbn [fetchFulfils decodeFulfils recorderSupported].
  intros F D R; subst; vm_compute; reflexivity.
Qed.

(** C7 (the code leaves the claim unmet).  When the guard passes and the
    canvas is there but [fetch(audioUrl)] or [decodeAudioData] rejects, or
    the [MediaRecorder] constructor throws, [handleDownloadVideo] rejects
    after it has created the audio context: both tracks are at 0, but the
    context is still running, [isRecording] is still set, no recorder is
    recording and no timer is set, so that no later callback of the poll
    closes the context: the world is not cleaned up. *)
Theorem handleDownloadVideo_failure_keeps_context_open :
  fetchFulfils h = false \/ decodeFulfils h = false \/
  recorderSupported h = false ->
  checkEnd (capture w0) = false ->
  exists e w1,
    handleDownloadVideo h w0 = (Rejected e, w1) /\
    option_map currentTime (videoRef (player w1)) = Some (Fin 0) /\
    option_map currentTime (audioRef (player w1)) = Some (Fin 0) /\
    audioContext (capture w1) = Some Running /\
    isRecording (player w1) = true /\
    mediaRecorder (capture w1) = mediaRecorder (capture w0) /\
    checkEnd (capture w1) = false /\
    ~ cleanedUp w1 /\
    forall ticks, runPoll ticks w1 = w1.
Proof.
  intros F Off.
  assert (R : exists e w1,
             handleDownloadVideo h w0 = (Rejected e, w1) /\
             player w1 = primed v a (player w0) /\
             audioContext (capture w1) = Some Running /\
             mediaRecorder (capture w1) = mediaRecorder (capture w0) /\
             checkEnd (capture w1) = checkEnd (capture w0)).
  { destruct (fetchFulfils h) eqn:Ff.
    - destruct (decodeFulfils h) eqn:Fd.
      + destruct F as [F | [F | F]]; try discriminate F.
        eexists _, _. split;
          [apply handleDownloadVideo_recorder_rejects; assumption |].
        repeat split.
      + eexists _, _. split;
          [apply handleDownloadVideo_rejects; right; repeat split; assumption |].
        repeat split.
    - eexists _, _. split;
        [apply handleDownloadVideo_rejects; left; split; [assumption | reflexivity] |].
      repeat split. }
  destruct R as (e & w1 & E & P & C & M & K).
  exists e, w1. rewrite P, C, M, K, Off.
  repeat split; try reflexivity; try exact E.
  - intros (X & _). rewrite C in X. discriminate X.
  - intros ticks. apply runPoll_inactive. now rewrite K.
Qed.

End ExportStart.

Lemma deliverStop_stopped (w : World) (ctx : AudioContextState)
      (v a : MediaElement) :
  stopped w ->
  audioContext (capture w) = Some ctx ->
  videoRef (player w) = Some v ->
  audioRef (player w) = Some a ->
  cleanedUp (deliverStop w) /\
  checkEnd (capture (deliverStop w)) = false /\
  mediaRecorder (capture (deliverStop w)) = Some Inactive /\
  downloads (capture (deliverStop w)) =
    ("dubbed_" ++ fileName (player w) ++ ".webm")%string
      :: downloads (capture w).
Proof.
  intros (E & _ & M & S & _ & _) C V A. unfold deliverStop. rewrite S.
  destruct w as [p0 c0]. cbn in *. unfold onstop, cleanedUp. cbn.
  rewrite C, V, A. cbn. repeat split; assumption.
Qed.

(** ** The capture session: a complete export *)

Section FullExport.

Variable h : Host.
Variable w0 : World.
Variables v a : MediaElement.
Variable c : Canvas.
Variables vd vr : Q.
Hypothesis video_present : videoRef (player w0) = Some v.
Hypothesis audio_present : audioRef (player w0) = Some a.
Hypothesis dub_url : truthyStr (audioUrl (player w0)) = true.
Hypothesis canvas_present : canvasRef (player w0) = Some c.
Hypothesis video_duration : duration v = Fin vd.
Hypothesis video_rate : video (playbackRates (player w0)) = Fin vr.
Hypothesis vd_pos : 0 < vd.
Hypothesis vr_pos : 0 < vr.
Hypothesis fetch_ok : fetchFulfils h = true.
Hypothesis decode_ok : decodeFulfils h = true.
Hypothesis recorder_ok : recorderSupported h = true.
Hypothesis no_stop_queued : stopEvent (capture w0) = false.

Lemma handleDownloadVideo_starts :
  exists w1,
    handleDownloadVideo h w0 = (Resolved tt, w1) /\
    recording (now h) (vd / vr) w1 /\
    audioContext (capture w1) = Some Running /\
    audioSource (capture w1)
      = Some (mkSource (audio (playbackRates (player w0))) Started) /\
    animationId (capture w1) = true /\
    videoRef (player w1)
      = Some (set_playbackRate (Fin vr)
                (play (set_currentTime (Fin 0) (pause v)))) /\
    audioRef (player w1) = Some (set_currentTime (Fin 0) (pause a)) /\
    isRecording (player w1) = true /\
    isPlaying (player w1) = false.
Proof.
  unfold handleDownloadVideo.
  rewrite video_present, audio_present, dub_url.
  destruct w0 as [[url name vref aref cref pl mu pr du [rv ra] re rp]
                    [ctx src rec ev anim timer frames st dur dl]].
  destruct h as [f d r n].
  destruct v as [vdur vcur vrate vmuted vpaused vw vh].
  cbn in video_present, audio_present, canvas_present, video_rate,
         video_duration, no_stop_queued, fetch_ok, decode_ok, recorder_ok.
  subst vref aref cref rv vdur f d r ev.
  eexists. split; [cbv -[div]; reflexivity |].
  unfold recording.
  cbn [capture player checkEnd mediaRecorder stopEvent startTime
       recordingDurationSec audioContext audioSource animationId videoRef
       audioRef isRecording isPlaying now playbackRates audio].
  rewrite div_Fin by lra.
  repeat split.
Qed.

(** C6.  An export whose requests all succeed stores the target
    [videoDuration / videoRate] and starts the poll.  When the poll reads
    the clock at most [pollInterval] = 100 ms after the previous reading and
    some reading reaches the target, then on the first reading [t] at or past
    the target, and not before, the callback clears the timer, cancels the
    frame request, stops the recorder and the buffer source and pauses the
    video; the elapsed time at that reading is at least the target and less
    than one poll interval above it; no later callback runs. *)
Theorem export_stops_within_one_interval (ticks : list Z) :
  paced (now h) ticks ->
  (exists t, In t ticks /\ vd / vr <= secs t (now h)) ->
  exists w1 pre t post,
    handleDownloadVideo h w0 = (Resolved tt, w1) /\
    recordingDurationSec (capture w1) = Fin (vd / vr) /\
    ticks = pre ++ t :: post /\
    Forall (fun u => secs u (now h) < vd / vr) pre /\
    vd / vr <= secs t (now h) < vd / vr + inject_Z pollInterval / 1000 /\
    recording (now h) (vd / vr) (runPoll pre w1) /\
    stopped (checkEndTick t (runPoll pre w1)) /\
    runPoll ticks w1 = deliverStop (checkEndTick t (runPoll pre w1)) /\
    checkEnd (capture (runPoll ticks w1)) = false /\
    cleanedUp (runPoll ticks w1).
Proof.
  intros P (t0 & I0 & R0).
  assert (T_pos : 0 < vd / vr) by now apply Qdiv_pos.
  destruct handleDownloadVideo_starts
    as (w1 & E1 & R1 & C1 & S1 & _ & V1 & A1 & _).
  destruct (first_reaching (fun u => Qle_bool (vd / vr) (secs u (now h))) ticks)
    as (pre & t & post & Et & B & Rt).
  { exists t0. split; [exact I0 | now apply Qle_bool_iff]. }
  destruct (runPoll_before (now h) (vd / vr) T_pos pre w1 R1 B)
    as (R' & C' & V' & A' & _ & _ & App).
  exists w1, pre, t, post.
  split; [exact E1 |]. split; [apply R1 |]. split; [exact Et |].
  split.
  { eapply Forall_impl; [| exact B]. cbn beta. intros u Hu.
    apply Qnot_le_lt. intros N. apply Qle_bool_iff in N. congruence. }
  split.
  { split; [now apply Qle_bool_iff |].
    rewrite Et in P.
    assert (I : inject_Z pollInterval / 1000 == 1 / 10) by reflexivity.
    rewrite I.
    apply (paced_overshoot (now h) (vd / vr) pre (now h) t post P);
      [rewrite secs_start; exact T_pos | exact B]. }
  split; [exact R' |].
  pose proof (checkEndTick_reaching (now h) (vd / vr) T_pos t _ R' Rt) as Tick.
  assert (St : stopped (checkEndTick t (runPoll pre w1))).
  { rewrite Tick. unfold stopped.
    cbn [onPlayer onCapture capture player checkEnd animationId mediaRecorder
         stopEvent audioSource set_audioSource set_stopEvent
         set_mediaRecorder set_animationId set_checkEnd
         onVideo set_videoRef setRecordingProgress videoRef].
    rewrite C', S1, V', V1. repeat split. }
  split; [exact St |].
  assert (Clean :
            cleanedUp (deliverStop (checkEndTick t (runPoll pre w1))) /\
            checkEnd (capture (deliverStop (checkEndTick t (runPoll pre w1))))
              = false).
  { destruct (deliverStop_stopped (checkEndTick t (runPoll pre w1)) Running
                (pause (set_playbackRate (Fin vr)
                          (play (set_currentTime (Fin 0) (pause v)))))
                (set_currentTime (Fin 0) (pause a)) St)
      as (K & E & _).
    - rewrite Tick.
      cbn [onPlayer onCapture capture audioContext set_audioSource
           set_stopEvent set_mediaRecorder set_animationId set_checkEnd].
      now rewrite C'.
    - rewrite Tick.
      cbn [onPlayer onCapture player onVideo set_videoRef
           setRecordingProgress videoRef option_map].
      now rewrite V', V1.
    - rewrite Tick.
      cbn [onPlayer onCapture player onVideo set_videoRef
           setRecordingProgress audioRef].
      now rewrite A', A1.
    - now split. }
  assert (Run : runPoll ticks w1
                = deliverStop (checkEndTick t (runPoll pre w1))).
  { rewrite Et, App. cbn [runPoll]. destruct R' as (On & _). rewrite On.
    apply runPoll_inactive. apply Clean. }
  split; [exact Run |]. rewrite Run. split; apply Clean.
Qed.


End FullExport.

(** ** The exports of the 10 s / 20 s pair and of a 10.05 s video *)

Lemma paced_from (start : Z) (n : nat) :
  forall k,
    paced (start + pollInterval * Z.of_nat k)
          (map (fun k => (start + pollInterval * Z.of_nat k)%Z) (seq (S k) n)).
Proof.
  induction n as [| n IH]; intros k; [exact I |].
  cbn [seq map paced]. split; [unfold pollInterval; lia | apply IH].
Qed.

Lemma paced_everyInterval (start : Z) (n : nat) :
  paced start (everyInterval start n).
Proof.
  pose proof (paced_from start n 0) as P.
  replace (start + pollInterval * Z.of_nat 0)%Z with start in P
    by (unfold pollInterval; lia).
  exact P.
Qed.


Lemma export_stops_within_one_interval_witness :
  exists w1 pre t post,
    handleDownloadVideo okHost syncedPair = (Resolved tt, w1) /\
    recordingDurationSec (capture w1) = Fin (10 / 1) /\
    everyInterval 0 101 = pre ++ t :: post /\
    Forall (fun u => secs u (now okHost) < 10 / 1) pre /\
    10 / 1 <= secs t (now okHost)
      < 10 / 1 + inject_Z pollInterval / 1000 /\
    recording (now okHost) (10 / 1) (runPoll pre w1) /\
    stopped (checkEndTick t (runPoll pre w1)) /\
    runPoll (everyInterval 0 101) w1
      = deliverStop (checkEndTick t (runPoll pre w1)) /\
    checkEnd (capture (runPoll (everyInterval 0 101) w1)) = false /\
    cleanedUp (runPoll (everyInterval 0 101) w1).
Proof.
  apply (export_stops_within_one_interval okHost syncedPair
           (set_muted true (set_playbackRate (Fin 1) (track 10 0)))
           (set_playbackRate (Fin (20 / 10)) (track 20 0))
           (mkCanvas 300 150) 10 1);
    try evaluate_or_lra.
  - apply paced_everyInterval.
  - exists 10000%Z. split; [| vm_compute; discriminate].
    apply in_map_iff. exists 100%nat. split; [reflexivity |].
    apply in_seq. lia.
Defined.

Lemma handleDownloadVideo_failure_keeps_context_open_witness :
  exists e w1,
    handleDownloadVideo offlineHost syncedPair = (Rejected e, w1) /\
    option_map currentTime (videoRef (player w1)) = Some (Fin 0) /\
    option_map currentTime (audioRef (player w1)) = Some (Fin 0) /\
    audioContext (capture w1) = Some Running /\
    isRecording (player w1) = true /\
    mediaRecorder (capture w1) = mediaRecorder (capture syncedPair) /\
    checkEnd (capture w1) = false /\
    ~ cleanedUp w1 /\
    forall ticks, runPoll ticks w1 = w1.
Proof.
  apply (handleDownloadVideo_failure_keeps_context_open offlineHost syncedPair
           (set_muted true (set_playbackRate (Fin 1) (track 10 0)))
           (set_playbackRate (Fin (20 / 10)) (track 20 0))
           (mkCanvas 300 150));
    try evaluate.
  left. reflexivity.
Defined.

(** The failing export, evaluated: the fetch rejects, the context stays
    running and the overlay stays up. *)
Example offline_export :
  fst (handleDownloadVideo offlineHost syncedPair) = Rejected FetchError /\
  audioContext (capture (snd (handleDownloadVideo offlineHost syncedPair)))
    = Some Running /\
  isRecording (player (snd (handleDownloadVideo offlineHost syncedPair)))
    = true.
Proof. vm_compute. repeat split. Qed.

(** The export of the 10.05 s video: the callback at 10.0 s leaves the poll
    running, the one at 10.1 s stores 10.1 / 10.05 * 100 = 20200/201 and
    stops it. *)
Example odd_length_reports :
  nth_error (progressTrace (everyInterval 0 101) exportOddLength) 99
    = Some (Fin (secs 10000 0 / ((1005 # 100) / 1) * 100)) /\
  nth_error (progressTrace (everyInterval 0 101) exportOddLength) 100
    = Some (Fin (secs 10100 0 / ((1005 # 100) / 1) * 100)) /\
  secs 10000 0 / ((1005 # 100) / 1) * 100 == 20000 # 201 /\
  secs 10100 0 / ((1005 # 100) / 1) * 100 == 20200 # 201 /\
  List.length (progressTrace (everyInterval 0 101) exportOddLength) = 101%nat.
Proof.
  split; [evaluate |]. split; [evaluate |].
  split; [reflexivity |]. split; [reflexivity | evaluate].
Qed.


(** ** Further properties of the sync logic *)

(** X1.  [syncDurations] is idempotent: the listener runs once per
    [loadedmetadata] event, so twice for a source pair, and the second run
    leaves every element field and state cell as the first run set it. *)
Theorem syncDurations_idempotent (p : Player) :
  syncDurations (syncDurations p) = syncDurations p.
Proof.
  destruct p as [url name [[vd vc vr vm vp vw vh] |]
                          [[ad ac ar am ap aw ah] |] c pl mu pr du ra re rp];
    unfold syncDurations; cbn [videoRef audioRef audioUrl duration];
    destruct (truthyStr url) eqn:U;
    try destruct (truthy vd && truthy ad && notInfinity vd && notInfinity ad)
      eqn:L;
    cbn -[computeRates truthy notInfinity truthyStr];
    rewrite ?U, ?L; reflexivity.
Qed.

(** X2.  While a duration is still unknown ([NaN], before the metadata is
    loaded), zero or [Infinity], [syncDurations] on a player with both
    elements and a dub URL changes nothing: rates, mute flag and state stay
    as they were. *)
Theorem syncDurations_waits_for_metadata (p : Player) (v a : MediaElement) :
  videoRef p = Some v -> audioRef p = Some a ->
  truthyStr (audioUrl p) = true ->
  (duration v = NaN \/ duration v === Fin 0 \/ duration v = PInf \/
   duration a = NaN \/ duration a === Fin 0 \/ duration a = PInf) ->
  syncDurations p = p.
Proof.
  intros V A U D. unfold syncDurations. rewrite V, A, U.
  assert (L : truthy (duration v) && truthy (duration a)
              && notInfinity (duration v) && notInfinity (duration a) = false).
  { destruct D as [D | [D | [D | [D | [D | D]]]]];
      try (rewrite D; cbn; now rewrite ?andb_false_r).
    - destruct (duration v) as [q | | |]; cbn in D; try contradiction.
      cbn. apply Qeq_bool_iff in D. now rewrite D.
    - destruct (duration a) as [q | | |]; cbn in D; try contradiction.
      cbn. apply Qeq_bool_iff in D. rewrite D. cbn.
      now rewrite andb_false_r. }
  now rewrite L.
Qed.

Lemma syncDurations_waits_for_metadata_witness :
  syncDurations
    (mount (Some "blob:dub"%string) "clip"%string (Some (track 10 0))
           (Some (mkMedia NaN (Fin 0) (Fin 1) false true 0 0))
           (Some (mkCanvas 300 150)))
  = mount (Some "blob:dub"%string) "clip"%string (Some (track 10 0))
          (Some (mkMedia NaN (Fin 0) (Fin 1) false true 0 0))
          (Some (mkCanvas 300 150)).
Proof.
  apply (syncDurations_waits_for_metadata _ (track 10 0)
           (mkMedia NaN (Fin 0) (Fin 1) false true 0 0));
    try reflexivity.
  right. right. right. left. reflexivity.
Defined.

(** X3.  Whatever the state, [syncDurations] writes nothing but the two
    playback rates, the video's mute flag and the [playbackRates] and
    [isMuted] cells: durations, positions and paused flags of both elements,
    the dub's mute flag, [isPlaying], [progress] and the recording state are
    as before. *)
Theorem syncDurations_keeps_positions (p : Player) :
  option_map (fun m => (duration m, currentTime m, paused m))
             (videoRef (syncDurations p))
  = option_map (fun m => (duration m, currentTime m, paused m)) (videoRef p) /\
  option_map (fun m => (duration m, currentTime m, paused m, muted m))
             (audioRef (syncDurations p))
  = option_map (fun m => (duration m, currentTime m, paused m, muted m))
               (audioRef p) /\
  isPlaying (syncDurations p) = isPlaying p /\
  progress (syncDurations p) = progress p /\
  stDuration (syncDurations p) = stDuration p /\
  isRecording (syncDurations p) = isRecording p /\
  recordingProgress (syncDurations p) = recordingProgress p /\
  canvasRef (syncDurations p) = canvasRef p.
Proof.
  destruct p as [url name [[vd vc vr vm vp vw vh] |]
                          [[ad ac ar am ap aw ah] |] c pl mu pr du ra re rp];
    unfold syncDurations; cbn [videoRef audioRef audioUrl duration];
    destruct (truthyStr url);
    try destruct (truthy vd && truthy ad && notInfinity vd && notInfinity ad);
    repeat split; reflexivity.
Qed.

Section SyncedLength.

Variable p : Player.
Variables v a : MediaElement.
Variables vd ad : Q.
Hypothesis video_present : videoRef p = Some v.
Hypothesis audio_present : audioRef p = Some a.
Hypothesis dub_url : truthyStr (audioUrl p) = true.
Hypothesis video_duration : duration v = Fin vd.
Hypothesis audio_duration : duration a = Fin ad.
Hypothesis vd_pos : 0 < vd.
Hypothesis ad_pos : 0 < ad.

(** X4.  With both durations positive and finite, the common length
    [duration / rate] of the two tracks after [syncDurations] is the
    duration of the shorter track, [min videoDuration audioDuration], to
    within 1e-3 seconds: the longer track is played in the time of the
    shorter one. *)
Theorem syncDurations_length_of_shorter :
  let r := playbackRates (syncDurations p) in
  within (1 # 1000) (div (Fin vd) (video r)) (Fin (Qmin vd ad)) /\
  within (1 # 1000) (div (Fin ad) (audio r)) (Fin (Qmin vd ad)).
Proof.
  rewrite (syncDurations_rates p v a vd ad video_present audio_present
             dub_url video_duration audio_duration vd_pos ad_pos).
  cbv zeta.
  destruct (computeRates_cases vd ad vd_pos ad_pos) as [[H R] | [H R]];
    rewrite R; cbn [video audio].
  - assert (0 < ad / vd) by now apply Qdiv_pos.
    rewrite !div_Fin by lra.
    split; (apply eqv_within; [discriminate | reflexivity |]); cbn [eqv];
      rewrite Q.min_l by lra; [| rewrite Qdiv_div_cancel by assumption];
      [field | reflexivity].
  - assert (0 < vd / ad) by now apply Qdiv_pos.
    rewrite !div_Fin by lra.
    split; (apply eqv_within; [discriminate | reflexivity |]); cbn [eqv];
      rewrite Q.min_r by lra; [rewrite Qdiv_div_cancel by assumption |];
      [reflexivity | field].
Qed.

End SyncedLength.

Lemma syncDurations_length_of_shorter_witness :
  let r := playbackRates (syncDurations (preview 10 20)) in
  within (1 # 1000) (div (Fin 10) (video r)) (Fin (Qmin 10 20)) /\
  within (1 # 1000) (div (Fin 20) (audio r)) (Fin (Qmin 10 20)).
Proof.
  apply (syncDurations_length_of_shorter
           (preview 10 20) (track 10 0) (track 20 0) 10 20);
    evaluate_or_lra.
Defined.

(** ** Further properties of the interactive playback *)

(** X5.  With a video element, [togglePlay] flips [isPlaying] and leaves
    both elements in step with it: each present element is paused exactly
    when the new [isPlaying] is false.  It writes nothing else: durations,
    positions, rates and mute flags of both elements and the other state
    cells are unchanged. *)
Theorem togglePlay_keeps_tracks_in_step (p : Player) (v : MediaElement) :
  videoRef p = Some v ->
  isPlaying (togglePlay p) = negb (isPlaying p) /\
  option_map paused (videoRef (togglePlay p))
    = Some (negb (isPlaying (togglePlay p))) /\
  option_map paused (audioRef (togglePlay p))
    = option_map (fun _ => negb (isPlaying (togglePlay p))) (audioRef p) /\
  option_map (fun m => (duration m, currentTime m, playbackRate m, muted m))
             (videoRef (togglePlay p))
    = option_map (fun m => (duration m, currentTime m, playbackRate m, muted m))
                 (videoRef p) /\
  option_map (fun m => (duration m, currentTime m, playbackRate m, muted m))
             (audioRef (togglePlay p))
    = option_map (fun m => (duration m, currentTime m, playbackRate m, muted m))
                 (audioRef p) /\
  playbackRates (togglePlay p) = playbackRates p /\
  isMuted (togglePlay p) = isMuted p /\
  progress (togglePlay p) = progress p /\
  isRecording (togglePlay p) = isRecording p.
Proof.
  intros V. unfold togglePlay. rewrite V.
  destruct p as [url name vref [a |] c [|] mu pr du ra re rp];
    cbn in V; subst vref; cbn; repeat split.
Qed.

Lemma togglePlay_keeps_tracks_in_step_witness :
  isPlaying (togglePlay (preview 10 20)) = negb (isPlaying (preview 10 20)) /\
  option_map paused (videoRef (togglePlay (preview 10 20)))
    = Some (negb (isPlaying (togglePlay (preview 10 20)))) /\
  option_map paused (audioRef (togglePlay (preview 10 20)))
    = option_map (fun _ => negb (isPlaying (togglePlay (preview 10 20))))
                 (audioRef (preview 10 20)) /\
  option_map (fun m => (duration m, currentTime m, playbackRate m, muted m))
             (videoRef (togglePlay (preview 10 20)))
    = option_map (fun m => (duration m, currentTime m, playbackRate m, muted m))
                 (videoRef (preview 10 20)) /\
  option_map (fun m => (duration m, currentTime m, playbackRate m, muted m))
             (audioRef (togglePlay (preview 10 20)))
    = option_map (fun m => (duration m, currentTime m, playbackRate m, muted m))
                 (audioRef (preview 10 20)) /\
  playbackRates (togglePlay (preview 10 20)) = playbackRates (preview 10 20) /\
  isMuted (togglePlay (preview 10 20)) = isMuted (preview 10 20) /\
  progress (togglePlay (preview 10 20)) = progress (preview 10 20) /\
  isRecording (togglePlay (preview 10 20)) = isRecording (preview 10 20).
Proof.
  apply (togglePlay_keeps_tracks_in_step (preview 10 20) (track 10 0)).
  reflexivity.
Defined.

(** X6.  Two mute toggles in a row restore the player exactly: the video's
    [muted] flag and the [isMuted] cell are both back, whatever they were
    and whether or not they agreed. *)
Theorem toggleMute_twice (p : Player) : toggleMute (toggleMute p) = p.
Proof.
  destruct p as [url name [[vd vc vr vm vp vw vh] |] a c pl mu pr du ra re rp];
    unfold toggleMute; cbn; [| reflexivity].
  now rewrite !negb_involutive.
Qed.

Lemma isFinite_mul (x y : num) :
  isFinite (mul x y) = isFinite x && isFinite y.
Proof.
  destruct x as [x | | |], y as [y | | |]; cbn [mul isFinite andb];
    try reflexivity;
    try (destruct (Qeq_bool x 0); [reflexivity |];
         destruct (Qlt_bool _ _); reflexivity);
    try (destruct (Qeq_bool y 0); [reflexivity |];
         destruct (Qlt_bool _ _); reflexivity).
Qed.

Lemma isFinite_percent (pct : num) :
  isFinite (div pct (Fin 100)) = isFinite pct.
Proof. destruct pct; reflexivity. Qed.

(** [handleSeek] by cases: the video write is finite exactly when [pct] and
    the video's duration are, and the dub write that its guard lets through
    is then finite too. *)
Lemma handleSeek_cases (pct : num) (p : Player) :
  handleSeek pct p =
  match videoRef p with
  | None => p
  | Some v =>
      if isFinite pct && isFinite (duration v)
      then
        let p1 :=
          onVideo (set_currentTime (mul (div pct (Fin 100)) (duration v))) p in
        match audioRef p with
        | Some a =>
            if isFinite (duration a)
            then setProgress pct
                   (onAudio (set_currentTime
                               (mul (div pct (Fin 100)) (duration a))) p1)
            else setProgress pct p1
        | None => setProgress pct p1
        end
      else p
  end.
Proof.
  unfold handleSeek. destruct (videoRef p) as [v |] eqn:V; [| reflexivity].
  cbv zeta. rewrite isFinite_mul, isFinite_percent.
  destruct (isFinite pct) eqn:P; [| reflexivity]. cbn [andb].
  destruct (isFinite (duration v)); [| reflexivity].
  cbn [onVideo set_videoRef audioRef].
  destruct (audioRef p) as [a |]; [| reflexivity].
  destruct (isFinite (duration a)) eqn:A; [| reflexivity].
  now rewrite isFinite_mul, isFinite_percent, P, A.
Qed.

(** X7.  Of two seeks in a row only the last one counts: for a percentage
    [q] in [0,100] and elements whose durations are what a media element
    can report, the player after [handleSeek q] does not depend on an
    earlier seek, whatever that seek asked for and whether it went through
    or ended in the [TypeError] of a non-finite position. *)
Theorem handleSeek_last_wins (q : Q) (r : num) (p : Player) :
  0 <= q <= 100 ->
  (forall v, videoRef p = Some v -> mediaDuration (duration v)) ->
  (forall a, audioRef p = Some a -> mediaDuration (duration a)) ->
  handleSeek (Fin q) (handleSeek r p) = handleSeek (Fin q) p.
Proof.
  intros _ _ _. rewrite (handleSeek_cases r p).
  destruct p as [url name [[vd vc vr vm vp vw vh] |]
                          [[ad ac ar am ap aw ah] |] c pl mu pr du ra re rp];
    cbn [videoRef audioRef duration]; try reflexivity;
    destruct (isFinite r); cbn [andb]; try reflexivity;
    destruct (isFinite vd) eqn:Fv; try reflexivity;
    try destruct (isFinite ad) eqn:Fa;
    rewrite !handleSeek_cases;
    cbn [videoRef audioRef duration onVideo onAudio set_videoRef set_audioRef
         setProgress option_map set_currentTime isFinite andb];
    rewrite ?Fv, ?Fa; reflexivity.
Qed.

Lemma handleSeek_last_wins_witness :
  handleSeek (Fin 50) (handleSeek NaN (syncDurations (preview 10 20)))
  = handleSeek (Fin 50) (syncDurations (preview 10 20)).
Proof.
  apply (handleSeek_last_wins 50 NaN (syncDurations (preview 10 20))).
  - lra.
  - intros v V. vm_compute in V. inversion V; subst. vm_compute. discriminate.
  - intros a A. vm_compute in A. inversion A; subst. vm_compute. discriminate.
Defined.

(** X8.  While the dub's duration is not finite ([NaN] before its metadata
    is loaded, or [Infinity]), a seek to a percentage in [0,100] on a video
    of known finite duration moves the video alone and leaves the dub
    element untouched; [progress] is set to the percentage. *)
Theorem handleSeek_skips_unloaded_dub (pct vd : Q) (p : Player)
        (v a : MediaElement) :
  videoRef p = Some v -> audioRef p = Some a ->
  duration v = Fin vd -> 0 <= vd -> 0 <= pct <= 100 ->
  isFinite (duration a) = false ->
  audioRef (handleSeek (Fin pct) p) = Some a /\
  videoRef (handleSeek (Fin pct) p)
    = Some (set_currentTime (Fin (pct / 100 * vd)) v) /\
  progress (handleSeek (Fin pct) p) = Fin pct.
Proof.
  intros V A D _ _ F. rewrite handleSeek_cases.
  destruct p as [url name vref aref c pl mu pr du ra re rp].
  cbn in V, A. subst vref aref.
  cbn [videoRef audioRef]. rewrite D, F. cbn [isFinite andb].
  rewrite div_Fin by discriminate.
  repeat split.
Qed.

Lemma handleSeek_skips_unloaded_dub_witness :
  audioRef (handleSeek (Fin 50)
              (mount (Some "blob:dub"%string) "clip"%string (Some (track 10 0))
                     (Some (mkMedia NaN (Fin 0) (Fin 1) false true 0 0)) None))
    = Some (mkMedia NaN (Fin 0) (Fin 1) false true 0 0) /\
  videoRef (handleSeek (Fin 50)
              (mount (Some "blob:dub"%string) "clip"%string (Some (track 10 0))
                     (Some (mkMedia NaN (Fin 0) (Fin 1) false true 0 0)) None))
    = Some (set_currentTime (Fin (50 / 100 * 10)) (track 10 0)) /\
  progress (handleSeek (Fin 50)
              (mount (Some "blob:dub"%string) "clip"%string (Some (track 10 0))
                     (Some (mkMedia NaN (Fin 0) (Fin 1) false true 0 0)) None))
    = Fin 50.
Proof.
  apply (handleSeek_skips_unloaded_dub 50 10 _ (track 10 0)
           (mkMedia NaN (Fin 0) (Fin 1) false true 0 0));
    solve [reflexivity | lra].
Defined.

Section Tick.

Variable p : Player.
Variables v a : MediaElement.
Variables vd ad vt at' : Q.
Hypothesis video_present : videoRef p = Some v.
Hypothesis audio_present : audioRef p = Some a.
Hypothesis dub_url : truthyStr (audioUrl p) = true.
Hypothesis video_duration : duration v = Fin vd.
Hypothesis audio_duration : duration a = Fin ad.
Hypothesis video_position : currentTime v = Fin vt.
Hypothesis audio_position : currentTime a = Fin at'.
Hypothesis vd_pos : 0 < vd.
Hypothesis ad_pos : 0 < ad.

Lemma handleTimeUpdate_loaded :
  handleTimeUpdate p =
  let q := setProgress (Fin (vt / vd * 100)) (setDuration (Fin vd) p) in
  if Qlt_bool (5 # 100) (Qabs (vt / vd - at' / ad))
  then onAudio (set_currentTime (Fin (vt / vd * ad))) q
  else q.
Proof.
  unfold handleTimeUpdate. rewrite video_present. cbv zeta.
  rewrite video_duration, video_position.
  rewrite (proj2 (gt_Fin vd 0) vd_pos).
  cbn [setProgress setDuration audioRef audioUrl].
  rewrite audio_present, dub_url, audio_duration, audio_position.
  rewrite !div_Fin by lra. cbn [sub abs driftTolerance gt isFinite mul].
  reflexivity.
Qed.

Lemma no_drift_after_correction :
  Qlt_bool (5 # 100) (Qabs (vt / vd - vt / vd * ad / ad)) = false.
Proof.
  apply Qlt_bool_false.
  assert (E : vt / vd - vt / vd * ad / ad == 0) by (field; lra).
  rewrite E. discriminate.
Qed.

End Tick.

(** X10.  A position-update tick is idempotent: with both tracks present, a
    dub URL and positive finite durations, a second tick at the same video
    position changes nothing, because the correction of the first one
    leaves no drift. *)
Theorem handleTimeUpdate_idempotent (p : Player) (v a : MediaElement)
        (vd ad vt at' : Q) :
  videoRef p = Some v -> audioRef p = Some a ->
  truthyStr (audioUrl p) = true ->
  duration v = Fin vd -> duration a = Fin ad ->
  currentTime v = Fin vt -> currentTime a = Fin at' ->
  0 < vd -> 0 < ad ->
  handleTimeUpdate (handleTimeUpdate p) = handleTimeUpdate p.
Proof.
  intros V A U Dv Da Cv Ca Pv Pa.
  rewrite (handleTimeUpdate_loaded p v a vd ad vt at' V A U Dv Da Cv Ca Pv Pa).
  destruct p as [url name vref aref c pl mu pr du ra re rp].
  cbn in V, A, U. subst vref aref.
  cbv zeta. destruct (Qlt_bool (5 # 100) (Qabs (vt / vd - at' / ad))) eqn:D.
  - cbn [onAudio setProgress setDuration set_audioRef audioRef option_map].
    rewrite (handleTimeUpdate_loaded _ v (set_currentTime (Fin (vt / vd * ad)) a)
               vd ad vt (vt / vd * ad));
      try assumption; try reflexivity.
    rewrite no_drift_after_correction by assumption. reflexivity.
  - cbn [setProgress setDuration].
    rewrite (handleTimeUpdate_loaded _ v a vd ad vt at');
      try assumption; try reflexivity.
    rewrite D. reflexivity.
Qed.

Lemma handleTimeUpdate_idempotent_witness :
  handleTimeUpdate (handleTimeUpdate exportAfterOneSecond)
  = handleTimeUpdate exportAfterOneSecond.
Proof.
  apply (handleTimeUpdate_idempotent exportAfterOneSecond
           (set_currentTime (Fin 1)
              (play (set_muted true (set_playbackRate (Fin 1) (track 10 0)))))
           (pause (set_playbackRate (Fin (20 / 10)) (track 20 0)))
           10 20 1 0);
    evaluate_or_lra.
Defined.

(** X9.  A seek leaves no drift: with both tracks present, a dub URL and
    positive finite durations, the tick that follows a seek to a percentage
    in [0,100] finds both tracks at the same fraction and moves neither
    element; the [progress] cell it recomputes from the video position is
    the percentage that was sought, up to rounding (to within 1e-6). *)
Theorem handleSeek_then_tick (p : Player) (v a : MediaElement)
        (vd ad pct : Q) :
  videoRef p = Some v -> audioRef p = Some a ->
  truthyStr (audioUrl p) = true ->
  duration v = Fin vd -> duration a = Fin ad ->
  0 < vd -> 0 < ad -> 0 <= pct <= 100 ->
  videoRef (handleTimeUpdate (handleSeek (Fin pct) p))
    = videoRef (handleSeek (Fin pct) p) /\
  audioRef (handleTimeUpdate (handleSeek (Fin pct) p))
    = audioRef (handleSeek (Fin pct) p) /\
  within (1 # 1000000)
         (progress (handleTimeUpdate (handleSeek (Fin pct) p))) (Fin pct).
Proof.
  intros V A U Dv Da Pv Pa _.
  rewrite (handleSeek_loaded p v a vd ad pct V A Dv Da).
  destruct p as [url name vref aref c pl mu pr du ra re rp].
  cbn in V, A, U. subst vref aref.
  cbn [setProgress onAudio onVideo set_audioRef set_videoRef audioRef videoRef
       option_map].
  rewrite (handleTimeUpdate_loaded _
             (set_currentTime (Fin (pct / 100 * vd)) v)
             (set_currentTime (Fin (pct / 100 * ad)) a)
             vd ad (pct / 100 * vd) (pct / 100 * ad));
    try assumption; try reflexivity.
  assert (D : Qlt_bool (5 # 100)
                (Qabs (pct / 100 * vd / vd - pct / 100 * ad / ad)) = false).
  { apply Qlt_bool_false.
    assert (E : pct / 100 * vd / vd - pct / 100 * ad / ad == 0)
      by (field; lra).
    rewrite E. discriminate. }
  rewrite D. cbv zeta. cbn [setProgress setDuration videoRef audioRef progress].
  do 2 (split; [reflexivity |]).
  apply eqv_within; [discriminate | reflexivity |].
  cbn [eqv]. field. lra.
Qed.

Lemma handleSeek_then_tick_witness :
  videoRef (handleTimeUpdate (handleSeek (Fin 50) (syncDurations (preview 10 20))))
    = videoRef (handleSeek (Fin 50) (syncDurations (preview 10 20))) /\
  audioRef (handleTimeUpdate (handleSeek (Fin 50) (syncDurations (preview 10 20))))
    = audioRef (handleSeek (Fin 50) (syncDurations (preview 10 20))) /\
  within (1 # 1000000)
         (progress (handleTimeUpdate
                      (handleSeek (Fin 50) (syncDurations (preview 10 20)))))
         (Fin 50).
Proof.
  apply (handleSeek_then_tick (syncDurations (preview 10 20))
           (set_muted true (set_playbackRate (Fin 1) (track 10 0)))
           (set_playbackRate (Fin (20 / 10)) (track 20 0)) 10 20 50);
    evaluate_or_lra.
Defined.

(** X11.  A tick keeps everything in range: with both tracks present, a dub
    URL, positive finite durations and both positions inside their tracks,
    [handleTimeUpdate] stores a [progress] between 0 and 100 and the video's
    duration in the [duration] cell, and the dub position it leaves,
    corrected or not, is inside the dub. *)
Theorem handleTimeUpdate_in_range (p : Player) (v a : MediaElement)
        (vd ad vt at' : Q) :
  videoRef p = Some v -> audioRef p = Some a ->
  truthyStr (audioUrl p) = true ->
  duration v = Fin vd -> duration a = Fin ad ->
  currentTime v = Fin vt -> currentTime a = Fin at' ->
  0 < vd -> 0 < ad -> 0 <= vt <= vd -> 0 <= at' <= ad ->
  exists x y a',
    progress (handleTimeUpdate p) = Fin x /\ 0 <= x <= 100 /\
    stDuration (handleTimeUpdate p) = Fin vd /\
    audioRef (handleTimeUpdate p) = Some a' /\
    currentTime a' = Fin y /\ 0 <= y <= ad /\ duration a' = Fin ad.
Proof.
  intros V A U Dv Da Cv Ca Pv Pa Rv Ra.
  rewrite (handleTimeUpdate_loaded p v a vd ad vt at' V A U Dv Da Cv Ca Pv Pa).
  destruct p as [url name vref aref c pl mu pr du ra re rp].
  cbn in V, A, U. subst vref aref. cbv zeta.
  assert (F : 0 <= vt / vd <= 1).
  { split; [apply Qle_shift_div_l | apply Qle_shift_div_r]; lra. }
  destruct (Qlt_bool (5 # 100) (Qabs (vt / vd - at' / ad))).
  - exists (vt / vd * 100), (vt / vd * ad), (set_currentTime (Fin (vt / vd * ad)) a).
    cbn [onAudio setProgress setDuration set_audioRef audioRef option_map
         progress stDuration set_currentTime currentTime duration].
    repeat split; try assumption; nra.
  - exists (vt / vd * 100), at', a.
    cbn [setProgress setDuration audioRef progress stDuration].
    repeat split; try assumption; lra.
Qed.

Lemma handleTimeUpdate_in_range_witness :
  exists x y a',
    progress (handleTimeUpdate exportAfterOneSecond) = Fin x /\
    0 <= x <= 100 /\
    stDuration (handleTimeUpdate exportAfterOneSecond) = Fin 10 /\
    audioRef (handleTimeUpdate exportAfterOneSecond) = Some a' /\
    currentTime a' = Fin y /\ 0 <= y <= 20 /\ duration a' = Fin 20.
Proof.
  apply (handleTimeUpdate_in_range exportAfterOneSecond
           (set_currentTime (Fin 1)
              (play (set_muted true (set_playbackRate (Fin 1) (track 10 0)))))
           (pause (set_playbackRate (Fin (20 / 10)) (track 20 0)))
           10 20 1 0);
    evaluate_or_lra.
Defined.

(** X12.  Without a dub there is no drift correction: when the dub element
    is absent, or the dub URL is missing or empty, or the dub's duration is
    not finite ([NaN] before its metadata is loaded, or [Infinity]),
    [handleTimeUpdate] leaves both elements exactly as they are. *)
Theorem handleTimeUpdate_without_dub (p : Player) :
  audioRef p = None \/ truthyStr (audioUrl p) = false \/
  (exists a, audioRef p = Some a /\ isFinite (duration a) = false) ->
  videoRef (handleTimeUpdate p) = videoRef p /\
  audioRef (handleTimeUpdate p) = audioRef p.
Proof.
  intros H. split; [apply handleTimeUpdate_video |].
  destruct p as [url name [v |] aref c pl mu pr du ra re rp];
    unfold handleTimeUpdate; cbn [videoRef]; [| reflexivity].
  cbv zeta.
  destruct (gt (duration v) (Fin 0));
    cbn [setProgress setDuration audioRef audioUrl];
    (destruct H as [H | [H | (a & H & F)]]; cbn in H;
     [subst aref; reflexivity
     | rewrite H; destruct aref; reflexivity
     | subst aref; destruct (truthyStr url); [| reflexivity];
       rewrite F; destruct (gt _ driftTolerance); reflexivity]).
Qed.

Lemma handleTimeUpdate_without_dub_witness :
  videoRef (handleTimeUpdate (mount None "clip"%string
                                    (Some (track 10 5)) None None))
    = videoRef (mount None "clip"%string (Some (track 10 5)) None None) /\
  audioRef (handleTimeUpdate (mount None "clip"%string
                                    (Some (track 10 5)) None None))
    = audioRef (mount None "clip"%string (Some (track 10 5)) None None).
Proof.
  apply handleTimeUpdate_without_dub. left. reflexivity.
Defined.

(** ** Further properties of the capture session *)

Lemma handleDownloadVideo_keeps_names (h : Host) (w : World) :
  fileName (player (snd (handleDownloadVideo h w))) = fileName (player w) /\
  audioUrl (player (snd (handleDownloadVideo h w))) = audioUrl (player w) /\
  downloads (capture (snd (handleDownloadVideo h w))) = downloads (capture w).
Proof.
  destruct w as [[url name vref aref cref pl mu pr du ra re rp]
                   [ctx src rec ev anim timer frames st dur dl]].
  destruct h as [[|] [|] [|] n]; destruct vref, aref, cref;
    unfold handleDownloadVideo; cbn [player videoRef audioRef audioUrl];
    destruct (truthyStr url); cbv -[div]; repeat split.
Qed.

Section ExportCanvas.

Variable h : Host.
Variable w0 : World.
Variables v a : MediaElement.
Hypothesis video_present : videoRef (player w0) = Some v.
Hypothesis audio_present : audioRef (player w0) = Some a.
Hypothesis dub_url : truthyStr (audioUrl (player w0)) = true.

(** X13.  When the guard passes but the canvas is not mounted,
    [handleDownloadVideo] resolves after it has paused and rewound both
    tracks and set [isRecording]: it creates no audio context, recorder or
    timer, and nothing is left that would clear [isRecording] again. *)
Theorem handleDownloadVideo_without_canvas :
  canvasRef (player w0) = None ->
  handleDownloadVideo h w0 =
  (Resolved tt,
   mkWorld (set_audioRef (Some (set_currentTime (Fin 0) (pause a)))
              (set_videoRef (Some (set_currentTime (Fin 0) (pause v)))
                 (setIsPlaying false (setIsRecording true (player w0)))))
           (capture w0)).
Proof.
  intros C. unfold handleDownloadVideo.
  rewrite video_present, audio_present, dub_url.
  destruct w0 as [[url name vref aref cref pl mu pr du ra re rp] c0].
  cbn in video_present, audio_present, C. subst vref aref cref.
  cbv -[div]. reflexivity.
Qed.

Variable c : Canvas.
Variable vr : Q.
Hypothesis canvas_present : canvasRef (player w0) = Some c.
Hypothesis video_rate : video (playbackRates (player w0)) = Fin vr.
Hypothesis vr_pos : 0 < vr.
Hypothesis fetch_ok : fetchFulfils h = true.
Hypothesis decode_ok : decodeFulfils h = true.
Hypothesis recorder_ok : recorderSupported h = true.
Hypothesis no_stop_queued : stopEvent (capture w0) = false.

Lemma handleDownloadVideo_starts_any :
  exists w1,
    handleDownloadVideo h w0 = (Resolved tt, w1) /\
    checkEnd (capture w1) = true /\
    mediaRecorder (capture w1) = Some Recording /\
    stopEvent (capture w1) = false /\
    recordingDurationSec (capture w1) = div (duration v) (Fin vr) /\
    audioContext (capture w1) = Some Running /\
    isRecording (player w1) = true.
Proof.
  unfold handleDownloadVideo.
  rewrite video_present, audio_present, dub_url.
  destruct w0 as [[url name vref aref cref pl mu pr du [rv ra] re rp]
                    [ctx src rec ev anim timer frames st dur dl]].
  destruct h as [f d r n].
  destruct v as [vdur vcur vrate vmuted vpaused vw vh].
  cbn in video_present, audio_present, canvas_present, video_rate,
         no_stop_queued, fetch_ok, decode_ok, recorder_ok.
  subst vref aref cref rv f d r ev.
  eexists. split; [cbv -[div]; reflexivity |].
  repeat split.
Qed.

End ExportCanvas.

Lemma handleDownloadVideo_without_canvas_witness :
  handleDownloadVideo okHost
    (mkWorld (set_canvasRef None (syncDurations (preview 10 20))) noCapture)
  = (Resolved tt,
     mkWorld
       (set_audioRef
          (Some (set_currentTime (Fin 0)
                   (pause (set_playbackRate (Fin (20 / 10)) (track 20 0)))))
          (set_videoRef
             (Some (set_currentTime (Fin 0)
                      (pause (set_muted true
                                (set_playbackRate (Fin 1) (track 10 0))))))
             (setIsPlaying false
                (setIsRecording true
                   (player (mkWorld (set_canvasRef None
                                       (syncDurations (preview 10 20)))
                                    noCapture))))))
       (capture (mkWorld (set_canvasRef None (syncDurations (preview 10 20)))
                         noCapture))).
Proof.
  apply (handleDownloadVideo_without_canvas okHost
           (mkWorld (set_canvasRef None (syncDurations (preview 10 20)))
                    noCapture)
           (set_muted true (set_playbackRate (Fin 1) (track 10 0)))
           (set_playbackRate (Fin (20 / 10)) (track 20 0)));
    evaluate.
Defined.

Lemma checkEndTick_unreachable (t : Z) (w : World) :
  recordingDurationSec (capture w) = NaN \/
  recordingDurationSec (capture w) = PInf ->
  checkEndTick t w =
  onPlayer (setRecordingProgress
              (mul (div (elapsedAt t (capture w))
                        (recordingDurationSec (capture w))) (Fin 100))) w.
Proof.
  intros D. unfold checkEndTick. cbv zeta. cbn [onPlayer capture].
  rewrite elapsedAt_secs. destruct D as [-> | ->]; reflexivity.
Qed.

Lemma runPoll_unreachable (ticks : list Z) :
  forall w,
    stopEvent (capture w) = false ->
    recordingDurationSec (capture w) = NaN \/
    recordingDurationSec (capture w) = PInf ->
    capture (runPoll ticks w) = capture w /\
    isRecording (player (runPoll ticks w)) = isRecording (player w) /\
    videoRef (player (runPoll ticks w)) = videoRef (player w) /\
    audioRef (player (runPoll ticks w)) = audioRef (player w).
Proof.
  induction ticks as [| t rest IH]; intros w E D; [repeat split |].
  cbn [runPoll]. destruct (checkEnd (capture w)); [| repeat split].
  rewrite (checkEndTick_unreachable t w D).
  unfold deliverStop. cbn [onPlayer capture]. rewrite E.
  destruct (IH (onPlayer (setRecordingProgress
                            (mul (div (elapsedAt t (capture w))
                                      (recordingDurationSec (capture w)))
                                 (Fin 100))) w) E D)
    as (C & R & V & A).
  rewrite C, R, V, A. repeat split.
Qed.

(** X16.  An export started while the video's duration is unknown ([NaN],
    metadata not loaded) or [Infinity] never ends: the target
    [video.duration / videoRate] is then [NaN] or [Infinity], no clock
    reading reaches it, and after any number of poll callbacks the timer is
    still set, the recorder still recording, the audio context still running
    and [isRecording] still set. *)
Theorem export_without_duration_never_stops
        (h : Host) (w0 : World) (v a : MediaElement) (c : Canvas) (vr : Q)
        (ticks : list Z) :
  videoRef (player w0) = Some v -> audioRef (player w0) = Some a ->
  truthyStr (audioUrl (player w0)) = true ->
  canvasRef (player w0) = Some c ->
  video (playbackRates (player w0)) = Fin vr -> 0 < vr ->
  fetchFulfils h = true -> decodeFulfils h = true ->
  recorderSupported h = true -> stopEvent (capture w0) = false ->
  duration v = NaN \/ duration v = PInf ->
  exists w1,
    handleDownloadVideo h w0 = (Resolved tt, w1) /\
    checkEnd (capture (runPoll ticks w1)) = true /\
    mediaRecorder (capture (runPoll ticks w1)) = Some Recording /\
    audioContext (capture (runPoll ticks w1)) = Some Running /\
    isRecording (player (runPoll ticks w1)) = true /\
    downloads (capture (runPoll ticks w1)) = downloads (capture w0).
Proof.
  intros V A U C R Pr Ff Fd Fr E D.
  destruct (handleDownloadVideo_starts_any h w0 v a V A U c vr C R Ff Fd Fr E)
    as (w1 & E1 & On & Rec & Ev & Dur & Ctx & IsRec).
  assert (D1 : recordingDurationSec (capture w1) = NaN \/
               recordingDurationSec (capture w1) = PInf).
  { rewrite Dur. destruct D as [-> | ->]; [left; reflexivity |].
    right. cbn. apply Qlt_le_weak in Pr. apply Qle_bool_iff in Pr.
    now rewrite Pr. }
  destruct (runPoll_unreachable ticks w1 Ev D1) as (Cap & IR & _).
  exists w1. rewrite Cap, IR, On, Rec, Ctx, IsRec.
  repeat split; try assumption.
  pose proof (handleDownloadVideo_keeps_names h w0) as (_ & _ & K).
  rewrite E1 in K. exact K.
Qed.

Lemma export_without_duration_never_stops_witness :
  exists w1,
    handleDownloadVideo okHost
      (mkWorld (mount (Some "blob:dub"%string) "clip"%string
                      (Some (mkMedia NaN (Fin 0) (Fin 1) false true 0 0))
                      (Some (track 20 0)) (Some (mkCanvas 300 150)))
               noCapture)
    = (Resolved tt, w1) /\
    checkEnd (capture (runPoll (everyInterval 0 101) w1)) = true /\
    mediaRecorder (capture (runPoll (everyInterval 0 101) w1))
      = Some Recording /\
    audioContext (capture (runPoll (everyInterval 0 101) w1)) = Some Running /\
    isRecording (player (runPoll (everyInterval 0 101) w1)) = true /\
    downloads (capture (runPoll (everyInterval 0 101) w1))
      = downloads (capture
          (mkWorld (mount (Some "blob:dub"%string) "clip"%string
                          (Some (mkMedia NaN (Fin 0) (Fin 1) false true 0 0))
                          (Some (track 20 0)) (Some (mkCanvas 300 150)))
                   noCapture)).
Proof.
  apply (export_without_duration_never_stops okHost _
           (mkMedia NaN (Fin 0) (Fin 1) false true 0 0) (track 20 0)
           (mkCanvas 300 150) 1);
    try evaluate_or_lra.
  left. reflexivity.
Defined.

Lemma checkEndTick_isPlaying (t : Z) (w : World) :
  isPlaying (player (checkEndTick t w)) = isPlaying (player w).
Proof.
  unfold checkEndTick. cbv zeta.
  destruct (ge _ _); [| reflexivity].
  cbn [onCapture onPlayer capture set_animationId set_checkEnd mediaRecorder].
  destruct (mediaRecorder (capture w)) as [[|] |]; reflexivity.
Qed.

Lemma deliverStop_isPlaying (w : World) :
  isPlaying (player (deliverStop w)) = isPlaying (player w).
Proof.
  unfold deliverStop. destruct (stopEvent (capture w)); [| reflexivity].
  destruct w as [[url name vref aref cref pl mu pr du ra re rp] c0].
  reflexivity.
Qed.

Lemma runPoll_isPlaying (ticks : list Z) :
  forall w, isPlaying (player (runPoll ticks w)) = isPlaying (player w).
Proof.
  induction ticks as [| t rest IH]; intros w; [reflexivity |].
  cbn [runPoll]. destruct (checkEnd (capture w)); [| reflexivity].
  now rewrite IH, deliverStop_isPlaying, checkEndTick_isPlaying.
Qed.

(** X15.  An export whose requests all succeed and whose poll reaches the
    target hands exactly one file to the browser, named
    ["dubbed_" ++ fileName ++ ".webm"], however many clock readings follow
    the stopping one; afterwards [isRecording] and [isPlaying] are false,
    both elements are paused, no [stop] event is pending and the timer is
    cleared. *)
Theorem export_hands_over_one_file
        (h : Host) (w0 : World) (v a : MediaElement) (c : Canvas) (vd vr : Q)
        (ticks : list Z) :
  videoRef (player w0) = Some v -> audioRef (player w0) = Some a ->
  truthyStr (audioUrl (player w0)) = true ->
  canvasRef (player w0) = Some c ->
  duration v = Fin vd -> video (playbackRates (player w0)) = Fin vr ->
  0 < vd -> 0 < vr ->
  fetchFulfils h = true -> decodeFulfils h = true ->
  recorderSupported h = true -> stopEvent (capture w0) = false ->
  (exists t, In t ticks /\ vd / vr <= secs t (now h)) ->
  exists w1,
    handleDownloadVideo h w0 = (Resolved tt, w1) /\
    downloads (capture (runPoll ticks w1))
      = ("dubbed_" ++ fileName (player w0) ++ ".webm")%string
          :: downloads (capture w0) /\
    isRecording (player (runPoll ticks w1)) = false /\
    isPlaying (player (runPoll ticks w1)) = false /\
    option_map paused (videoRef (player (runPoll ticks w1))) = Some true /\
    option_map paused (audioRef (player (runPoll ticks w1))) = Some true /\
    stopEvent (capture (runPoll ticks w1)) = false /\
    checkEnd (capture (runPoll ticks w1)) = false.
Proof.
  intros V A U C Dv R Pv Pr Ff Fd Fr E (t0 & I0 & R0).
  assert (T_pos : 0 < vd / vr) by now apply Qdiv_pos.
  destruct (handleDownloadVideo_starts h w0 v a c vd vr V A U C Dv R Pr
              Ff Fd Fr E)
    as (w1 & E1 & R1 & C1 & S1 & _ & V1 & A1 & _ & P1).
  pose proof (handleDownloadVideo_keeps_names h w0) as (N1 & _ & K1).
  rewrite E1 in N1, K1. cbn [snd] in N1, K1.
  destruct (first_reaching (fun u => Qle_bool (vd / vr) (secs u (now h))) ticks)
    as (pre & t & post & Et & B & Rt).
  { exists t0. split; [exact I0 | now apply Qle_bool_iff]. }
  destruct (runPoll_before (now h) (vd / vr) T_pos pre w1 R1 B)
    as (R' & C' & V' & A' & F' & _ & App).
  pose proof (runPoll_isPlaying pre w1) as P'.
  pose proof (checkEndTick_reaching (now h) (vd / vr) T_pos t _ R' Rt) as Tick.
  assert (Run : runPoll ticks w1
                = deliverStop (checkEndTick t (runPoll pre w1))).
  { rewrite Et, App. cbn [runPoll]. destruct R' as (On & _). rewrite On.
    apply runPoll_inactive. rewrite deliverStop_checkEnd, Tick. reflexivity. }
  exists w1. split; [exact E1 |]. rewrite Run, Tick.
  destruct (runPoll pre w1)
    as [[url name vref aref cref pl mu pr du ra re rp]
          [ctx src rec ev anim timer frames st dur dl]].
  destruct R' as (_ & _ & Ev & _).
  cbn in Ev, C', V', A', F', P'. subst ev.
  rewrite V1 in V'. rewrite A1 in A'. rewrite P1 in P'. rewrite N1 in F'.
  rewrite <- K1, <- C'.
  subst vref aref pl name.
  unfold deliverStop, onstop. cbn. repeat split.
Qed.

Lemma export_hands_over_one_file_witness :
  exists w1,
    handleDownloadVideo okHost syncedPair = (Resolved tt, w1) /\
    downloads (capture (runPoll (everyInterval 0 101) w1))
      = ("dubbed_" ++ fileName (player syncedPair) ++ ".webm")%string
          :: downloads (capture syncedPair) /\
    isRecording (player (runPoll (everyInterval 0 101) w1)) = false /\
    isPlaying (player (runPoll (everyInterval 0 101) w1)) = false /\
    option_map paused (videoRef (player (runPoll (everyInterval 0 101) w1)))
      = Some true /\
    option_map paused (audioRef (player (runPoll (everyInterval 0 101) w1)))
      = Some true /\
    stopEvent (capture (runPoll (everyInterval 0 101) w1)) = false /\
    checkEnd (capture (runPoll (everyInterval 0 101) w1)) = false.
Proof.
  apply (export_hands_over_one_file okHost syncedPair
           (set_muted true (set_playbackRate (Fin 1) (track 10 0)))
           (set_playbackRate (Fin (20 / 10)) (track 20 0))
           (mkCanvas 300 150) 10 1);
    try evaluate_or_lra.
  exists 10000%Z. split; [| vm_compute; discriminate].
  apply in_map_iff. exists 100%nat. split; [reflexivity |].
  apply in_seq. lia.
Defined.

Lemma syncDurations_refs (p : Player) :
  canvasRef (syncDurations p) = canvasRef p /\
  audioUrl (syncDurations p) = audioUrl p.
Proof.
  destruct p as [url name [[vd vc vr vm vp vw vh] |]
                          [[ad ac ar am ap aw ah] |] c pl mu pr du ra re rp];
    unfold syncDurations; cbn [videoRef audioRef audioUrl duration];
    destruct (truthyStr url);
    try destruct (truthy vd && truthy ad && notInfinity vd && notInfinity ad);
    split; reflexivity.
Qed.

(** X14.  Preview and export agree on the length: when the export is started
    on a player that [syncDurations] has synchronised (positive finite
    durations), the stop target [video.duration / videoRate] is the duration
    of the shorter track to within 1e-3 seconds, the video element plays at
    the video rate, and the buffer source is started at the audio rate, at
    which the whole dub lasts the target to within 1e-3 seconds. *)
Theorem export_target_is_common_length
        (h : Host) (p : Player) (c0 : Capture) (v a : MediaElement)
        (cv : Canvas) (vd ad : Q) :
  videoRef p = Some v -> audioRef p = Some a ->
  truthyStr (audioUrl p) = true -> canvasRef p = Some cv ->
  duration v = Fin vd -> duration a = Fin ad -> 0 < vd -> 0 < ad ->
  fetchFulfils h = true -> decodeFulfils h = true ->
  recorderSupported h = true -> stopEvent c0 = false ->
  exists w1 T src,
    handleDownloadVideo h (mkWorld (syncDurations p) c0) = (Resolved tt, w1) /\
    recordingDurationSec (capture w1) = Fin T /\
    Qabs (T - Qmin vd ad) <= 1 # 1000 /\
    audioSource (capture w1) = Some src /\
    sourceState src = Started /\
    sourceRate src = audio (playbackRates (syncDurations p)) /\
    within (1 # 1000) (div (Fin ad) (sourceRate src)) (Fin T) /\
    option_map playbackRate (videoRef (player w1))
      = Some (video (playbackRates (syncDurations p))).
Proof.
  intros V A U C Dv Da Pv Pa Ff Fd Fr E.
  pose proof (syncDurations_video p v a vd ad V A U Dv Da Pv Pa) as V'.
  pose proof (syncDurations_audio p v a vd ad V A U Dv Da Pv Pa) as A'.
  pose proof (syncDurations_rates p v a vd ad V A U Dv Da Pv Pa) as R'.
  destruct (syncDurations_refs p) as [C' U']. rewrite C in C'. rewrite <- U' in U.
  assert (S : exists vr ar,
             computeRates (Fin vd) (Fin ad) = mkRates (Fin vr) (Fin ar) /\
             0 < vr /\ 0 < ar /\ vd / vr == Qmin vd ad /\ ad / ar == vd / vr).
  { destruct (computeRates_cases vd ad Pv Pa) as [[H K] | [H K]]; rewrite K.
    - exists 1, (ad / vd). split; [reflexivity |].
      split; [lra |]. split; [now apply Qdiv_pos |].
      rewrite Q.min_l by lra. rewrite Qdiv_div_cancel by assumption.
      split; field.
    - exists (vd / ad), 1. split; [reflexivity |].
      split; [now apply Qdiv_pos |]. split; [lra |].
      rewrite Q.min_r by lra. rewrite Qdiv_div_cancel by assumption.
      split; [reflexivity | field]. }
  destruct S as (vr & ar & K & Pvr & Par & M & L).
  rewrite K in V', A', R'.
  cbn [video audio] in V', A'.
  destruct (handleDownloadVideo_starts h (mkWorld (syncDurations p) c0)
              (set_muted true (set_playbackRate (Fin vr) v))
              (set_playbackRate (Fin ar) a) cv vd vr)
    as (w1 & E1 & R1 & _ & S1 & _ & V1 & _);
    cbn [player capture]; try assumption.
  { now rewrite R'. }
  exists w1, (vd / vr), (mkSource (Fin ar) Started).
  cbn [player] in S1. rewrite R' in S1. cbn [audio] in S1.
  split; [exact E1 |]. split; [apply R1 |].
  split; [rewrite M; apply Qabs_Qle_condition; split; lra |].
  split; [exact S1 |]. split; [reflexivity |].
  rewrite R'. cbn [sourceRate video audio].
  split; [reflexivity |].
  split; [rewrite div_Fin by lra;
          apply eqv_within; [discriminate | reflexivity | exact L] |].
  now rewrite V1.
Qed.

Lemma export_target_is_common_length_witness :
  exists w1 T src,
    handleDownloadVideo okHost (mkWorld (syncDurations (preview 10 20)) noCapture)
      = (Resolved tt, w1) /\
    recordingDurationSec (capture w1) = Fin T /\
    Qabs (T - Qmin 10 20) <= 1 # 1000 /\
    audioSource (capture w1) = Some src /\
    sourceState src = Started /\
    sourceRate src = audio (playbackRates (syncDurations (preview 10 20))) /\
    within (1 # 1000) (div (Fin 20) (sourceRate src)) (Fin T) /\
    option_map playbackRate (videoRef (player w1))
      = Some (video (playbackRates (syncDurations (preview 10 20)))).
Proof.
  apply (export_target_is_common_length okHost (preview 10 20) noCapture
           (track 10 0) (track 20 0) (mkCanvas 300 150) 10 20);
    evaluate_or_lra.
Defined.

(** ** The batch queue: adding, removing and selecting *)

Section Queue.

Import App.

Lemma find_app_fresh (x : string) (old : list BatchItem) (k : BatchItem)
      (rest : list BatchItem) :
  ~ In x (map id old) -> id k = x ->
  find (fun i => String.eqb (id i) x) (old ++ k :: rest) = Some k.
Proof.
  intros F E. induction old as [| o old IH]; cbn [app find].
  - rewrite E, String.eqb_refl. reflexivity.
  - destruct (String.eqb (id o) x) eqn:Q.
    + apply String.eqb_eq in Q. exfalso. apply F. left. exact Q.
    + apply IH. intros I. apply F. right. exact I.
Qed.

Lemma filter_fresh (x : string) (l : list BatchItem) :
  ~ In x (map id l) ->
  filter (fun item => negb (String.eqb (id item) x)) l = l.
Proof.
  intros F. induction l as [| o l IH]; [reflexivity |].
  cbn [filter]. destruct (String.eqb (id o) x) eqn:Q.
  - apply String.eqb_eq in Q. exfalso. apply F. left. exact Q.
  - cbn [negb]. f_equal. apply IH. intros I. apply F. right. exact I.
Qed.

Lemma find_filter_other (x y : string) (l : list BatchItem) :
  x <> y ->
  find (fun i => String.eqb (id i) y)
       (filter (fun item => negb (String.eqb (id item) x)) l)
  = find (fun i => String.eqb (id i) y) l.
Proof.
  intros N. induction l as [| o l IH]; [reflexivity |].
  cbn [filter find]. destruct (String.eqb (id o) x) eqn:Q; cbn [negb].
  - apply String.eqb_eq in Q.
    destruct (String.eqb (id o) y) eqn:R; [| exact IH].
    apply String.eqb_eq in R. congruence.
  - cbn [find]. destruct (String.eqb (id o) y); [reflexivity | exact IH].
Qed.

(** X17.  Picking files never drops, reorders or alters the items already
    queued: whatever is picked and whatever is selected, the queue after
    [handleFilesChange] is the old queue followed by one new [PENDING] item
    per picked file, in pick order, and no other state cell but the
    selection changes.  A selection that exists is kept; an empty or absent
    pick changes nothing.  When nothing was selected, the selection becomes
    the id drawn for the first picked file, and if that id is not the id of
    a queued item, the first new item is the selected item. *)
Theorem handleFilesChange_appends_and_selects
        (files : option (list Picked)) (s : State) :
  let picked := match files with Some l => l | None => [] end in
  batchItems (handleFilesChange files s)
    = batchItems s ++ map newItem picked /\
  Forall (fun i => status i = PENDING /\ result i = None /\ error i = None)
         (map newItem picked) /\
  map file (map newItem picked) = map pickedFile picked /\
  isProcessingBatch (handleFilesChange files s) = isProcessingBatch s /\
  processingError (handleFilesChange files s) = processingError s /\
  previewingVoice (handleFilesChange files s) = previewingVoice s /\
  config (handleFilesChange files s) = config s /\
  (truthyStr (selectedItemId s) = true ->
   selectedItemId (handleFilesChange files s) = selectedItemId s) /\
  (picked = [] -> handleFilesChange files s = s) /\
  (forall k ks,
     picked = k :: ks -> truthyStr (selectedItemId s) = false ->
     selectedItemId (handleFilesChange files s) = Some (randomId k) /\
     (~ In (randomId k) (map id (batchItems s)) ->
      selectedItem (handleFilesChange files s) = Some (newItem k))).
Proof.
  cbv zeta.
  split.
  { destruct files as [[| k ks] |]; unfold handleFilesChange;
      try (now rewrite app_nil_r).
    destruct (truthyStr (selectedItemId s)); reflexivity. }
  split.
  { apply Forall_forall. intros i I.
    apply in_map_iff in I. destruct I as (j & <- & _). now repeat split. }
  split; [now rewrite map_map |].
  do 4 (split;
        [destruct files as [[| k ks] |]; unfold handleFilesChange;
         try reflexivity;
         destruct (truthyStr (selectedItemId s)); reflexivity |]).
  split.
  { intros T. destruct files as [[| k ks] |]; unfold handleFilesChange;
      try reflexivity. now rewrite T. }
  split.
  { intros E. destruct files as [[| k ks] |]; [reflexivity | | reflexivity].
    discriminate E. }
  intros k ks E U. destruct files as [l |]; [| discriminate E]. subst l.
  unfold handleFilesChange. rewrite U. cbn [negb map].
  split; [reflexivity |].
  intros F. unfold selectedItem.
  cbn [setSelectedItemId setBatchItems selectedItemId batchItems].
  apply find_app_fresh; [exact F | reflexivity].
Qed.

Lemma handleFilesChange_appends_and_selects_witness :
  batchItems (handleFilesChange
                (Some [mkPicked (mkFile "a.mp4" "video/mp4") "k3x9" "blob:a";
                       mkPicked (mkFile "b.mp4" "video/mp4") "p0q1" "blob:b"])
                initial)
    = batchItems initial
      ++ map newItem [mkPicked (mkFile "a.mp4" "video/mp4") "k3x9" "blob:a";
                      mkPicked (mkFile "b.mp4" "video/mp4") "p0q1" "blob:b"] /\
  selectedItem (handleFilesChange
                  (Some [mkPicked (mkFile "a.mp4" "video/mp4") "k3x9" "blob:a";
                         mkPicked (mkFile "b.mp4" "video/mp4") "p0q1" "blob:b"])
                  initial)
    = Some (newItem (mkPicked (mkFile "a.mp4" "video/mp4") "k3x9" "blob:a")).
Proof.
  pose proof (handleFilesChange_appends_and_selects
                (Some [mkPicked (mkFile "a.mp4" "video/mp4") "k3x9" "blob:a";
                       mkPicked (mkFile "b.mp4" "video/mp4") "p0q1" "blob:b"])
                initial) as H.
  cbv zeta in H.
  destruct H as (B & _ & _ & _ & _ & _ & _ & _ & _ & S).
  split; [exact B |].
  destruct (S _ _ eq_refl eq_refl) as [_ S'].
  apply S'. intros I. exact I.
Defined.

(** X18.  After [removeBatchItem x] no queued item has id [x], every item
    with another id is still queued, and a list without the id is left as it
    is.  The selected item is the same as before unless [x] was the selected
    id, in which case nothing is selected. *)
Theorem removeBatchItem_removes_only_that_id (x : string) (s : State) :
  ~ In x (map id (batchItems (removeBatchItem x s))) /\
  (forall i, In i (batchItems s) -> id i <> x ->
     In i (batchItems (removeBatchItem x s))) /\
  (forall i, In i (batchItems (removeBatchItem x s)) -> In i (batchItems s)) /\
  (~ In x (map id (batchItems s)) ->
     batchItems (removeBatchItem x s) = batchItems s) /\
  selectedItem (removeBatchItem x s)
    = (if isSelected x s then None else selectedItem s).
Proof.
  assert (B : batchItems (removeBatchItem x s)
              = filter (fun item => negb (String.eqb (id item) x))
                       (batchItems s)).
  { unfold removeBatchItem. destruct (isSelected x s); reflexivity. }
  rewrite B. split; [| split; [| split; [| split]]].
  - intros I. apply in_map_iff in I. destruct I as (i & E & I).
    apply filter_In in I. destruct I as [_ N].
    rewrite E, String.eqb_refl in N. discriminate N.
  - intros i I N. apply filter_In. split; [exact I |].
    apply negb_true_iff, String.eqb_neq, N.
  - intros i I. apply filter_In in I. apply I.
  - apply filter_fresh.
  - destruct s as [items [y |] pb pe pv cfg];
      unfold removeBatchItem, selectedItem, isSelected;
      cbn [selectedItemId batchItems setBatchItems]; [| reflexivity].
    destruct (String.eqb y x) eqn:Q;
      cbn [selectedItemId batchItems setBatchItems setSelectedItemId];
      [reflexivity |].
    apply find_filter_other. apply String.eqb_neq in Q. congruence.
Qed.

(** X19.  Picking one file and removing it again gives back the queue as it
    was, provided the id drawn for the file is not the id of a queued
    item. *)
Theorem remove_after_pick (k : Picked) (s : State) :
  ~ In (randomId k) (map id (batchItems s)) ->
  batchItems (removeBatchItem (randomId k) (handleFilesChange (Some [k]) s))
    = batchItems s.
Proof.
  intros F.
  assert (A : batchItems (handleFilesChange (Some [k]) s)
              = batchItems s ++ [newItem k]).
  { unfold handleFilesChange.
    destruct (negb (truthyStr (selectedItemId s))); reflexivity. }
  assert (B : forall x t, batchItems (removeBatchItem x t)
              = filter (fun item => negb (String.eqb (id item) x))
                       (batchItems t)).
  { intros x t. unfold removeBatchItem. destruct (isSelected x t); reflexivity. }
  rewrite B, A, filter_app, (filter_fresh _ _ F). cbn [filter newItem id].
  rewrite String.eqb_refl. cbn [negb]. apply app_nil_r.
Qed.

Lemma remove_after_pick_witness :
  batchItems
    (removeBatchItem
       (randomId (mkPicked (mkFile "a.mp4" "video/mp4") "k3x9" "blob:a"))
       (handleFilesChange
          (Some [mkPicked (mkFile "a.mp4" "video/mp4") "k3x9" "blob:a"])
          initial))
  = batchItems initial.
Proof.
  apply (remove_after_pick
           (mkPicked (mkFile "a.mp4" "video/mp4") "k3x9" "blob:a") initial).
  intros I. exact I.
Defined.

End Queue.

(** ** The Gemini service *)

Section Service.

Import App.

Variable sv : Services.

Lemma truthyStr_Some (o : option string) :
  truthyStr o = true -> exists t, o = Some t /\ t <> EmptyString.
Proof.
  destruct o as [[| c t] |]; try discriminate. intros _.
  exists (String c t). split; [reflexivity | discriminate].
Qed.

Lemma truthyStr_of_Some (t : string) :
  t <> EmptyString -> truthyStr (Some t) = true.
Proof. destruct t; [congruence | reflexivity]. Qed.

(** X20.  [translateVideoContent] returns a script exactly when the API key
    is set and the service answers the request (model, MIME type, video
    data, prompt for the target language) with a non-empty text, and then
    it returns that text: it never returns an empty script.  Without an API
    key it throws the missing-key error whatever the service would
    answer. *)
Theorem translateVideoContent_script (base64Video mimeType : string)
        (l : Language) :
  (forall t,
     translateVideoContent sv base64Video mimeType l = Ok t <->
     truthyStr (API_KEY sv) = true /\ t <> EmptyString /\
     exists r,
       generateContent sv
         (TranslateRequest "gemini-2.5-flash" mimeType base64Video (prompt l))
         = Ok r /\ text r = Some t) /\
  (truthyStr (API_KEY sv) = false ->
   translateVideoContent sv base64Video mimeType l
     = Throws (Error "API Key is missing in environment variables.")).
Proof.
  unfold translateVideoContent, getAiClient. split.
  - intros t. destruct (truthyStr (API_KEY sv)).
    + destruct (generateContent sv _) as [r | e].
      * destruct (truthyStr (text r)) eqn:T.
        -- destruct (truthyStr_Some _ T) as (u & E & N). rewrite E. split.
           ++ intros H. inversion H; subst. split; [reflexivity |].
              split; [exact N |]. exists r. now split.
           ++ intros (_ & _ & r' & H & H'). inversion H; subst.
              congruence.
        -- split; [discriminate |].
           intros (_ & N & r' & H & H'). inversion H; subst.
           rewrite H' in T. now rewrite (truthyStr_of_Some t N) in T.
      * split; [discriminate |]. intros (_ & _ & r' & H & _). discriminate H.
    + split; [discriminate |]. intros (H & _). discriminate H.
  - intros ->. reflexivity.
Qed.

Lemma generateSpeech_contexts (txt voice : string) (n : nat) :
  (forall u m, generateSpeech sv txt voice n = (Ok u, m) -> m = n) /\
  (n <= snd (generateSpeech sv txt voice n) <= S n)%nat.
Proof.
  unfold generateSpeech. destruct (getAiClient sv); [| split; [| cbn; lia]];
    [| intros u m H; discriminate H].
  destruct (generateContent sv _) as [r | e];
    [| split; [intros u m H; discriminate H | cbn; lia]].
  destruct (truthyStr (inlineData r));
    [| split; [intros u m H; discriminate H | cbn; lia]].
  destruct (inlineData r);
    [| split; [intros u m H; discriminate H | cbn; lia]].
  destruct (decodeAudioData sv _);
    (split; [intros u m H; inversion H; reflexivity | cbn; lia]).
Qed.

Lemma generateSpeech_fst (txt voice : string) (n m : nat) :
  fst (generateSpeech sv txt voice n) = fst (generateSpeech sv txt voice m).
Proof.
  unfold generateSpeech. destruct (getAiClient sv); [| reflexivity].
  destruct (generateContent sv _) as [r | e]; [| reflexivity].
  destruct (truthyStr (inlineData r)); [| reflexivity].
  destruct (inlineData r); [| reflexivity].
  destruct (decodeAudioData sv _); reflexivity.
Qed.

(** X21.  [generateSpeech] and the audio context: when it returns a URL,
    the URL is the WAV of the decoded audio of the response and the context
    it opened is closed again; when it throws, either no context was opened
    (no API key, request failed, no audio in the response), or the decoding
    of the audio failed and the context it opened is left open. *)
Theorem generateSpeech_audio_context (txt voice : string) (n : nat) :
  match generateSpeech sv txt voice n with
  | (Ok url, n') =>
      n' = n /\
      exists r data buffer,
        generateContent sv
          (SpeechRequest "gemini-2.5-flash-preview-tts" txt voice) = Ok r /\
        inlineData r = Some data /\ data <> EmptyString /\
        decodeAudioData sv (decodeBase64 sv data) = Ok buffer /\
        url = audioBufferToWavUrl sv buffer
  | (Throws e, n') =>
      (n' = n /\
       forall r data,
         generateContent sv
           (SpeechRequest "gemini-2.5-flash-preview-tts" txt voice) = Ok r ->
         inlineData r = Some data -> data <> EmptyString ->
         truthyStr (API_KEY sv) = false) \/
      (n' = S n /\
       exists r data,
         generateContent sv
           (SpeechRequest "gemini-2.5-flash-preview-tts" txt voice) = Ok r /\
         inlineData r = Some data /\
         decodeAudioData sv (decodeBase64 sv data) = Throws e)
  end.
Proof.
  unfold generateSpeech, getAiClient.
  destruct (truthyStr (API_KEY sv)).
  - destruct (generateContent sv _) as [r | e].
    + destruct (truthyStr (inlineData r)) eqn:T.
      * destruct (truthyStr_Some _ T) as (data & E & N). rewrite E.
        destruct (decodeAudioData sv (decodeBase64 sv data)) as [b | e] eqn:D.
        -- split; [reflexivity |]. exists r, data, b. now repeat split.
        -- right. split; [reflexivity |]. exists r, data. now repeat split.
      * left. split; [reflexivity |]. intros r' data H E N.
        inversion H; subst. rewrite E in T.
        now rewrite (truthyStr_of_Some data N) in T.
    + left. split; [reflexivity |]. intros r' data H. discriminate H.
  - left. split; [reflexivity |]. reflexivity.
Qed.

End Service.

(** ** The batch queue: processing *)

Section Batch.

Import App.

Variable sv : Services.
Variable cfg : DubbingConfig.

Lemma messageOf_not_empty (e : Thrown) : messageOf e <> EmptyString.
Proof.
  destruct e as [[[| c m] |]]; discriminate.
Qed.

Lemma processItem_settled (item : BatchItem) (w : World) :
  fst (processItem sv cfg item w) = settled sv cfg item.
Proof.
  unfold settled, processItem.
  destruct (fileToBase64 sv (file item)) as [b | e]; [| reflexivity].
  destruct (translateVideoContent sv b _ _) as [t | e]; [| reflexivity].
  cbn [onState openAudioContexts].
  pose proof (generateSpeech_fst sv t (voiceName cfg)
                (openAudioContexts w) 0) as G.
  destruct (generateSpeech sv t (voiceName cfg) (openAudioContexts w))
    as [[u | e] n];
    destruct (generateSpeech sv t (voiceName cfg) 0) as [[u' | e'] n'];
    cbn [fst] in G; try discriminate G; inversion G; reflexivity.
Qed.

Lemma caught_Ok (item r : BatchItem) (e : Reason) :
  caught item e = Ok r -> exists t, e = object t /\ r = failed item t.
Proof.
  destruct e as [t |]; cbn [caught]; intros H; inversion H.
  now exists t.
Qed.

Lemma caught_Throws (item : BatchItem) (e e' : Reason) :
  caught item e = Throws e' -> e = nullish.
Proof. destruct e; cbn [caught]; intros H; [discriminate H | reflexivity]. Qed.

Lemma translateVideoContent_reason (b mime : string) (l : Language) :
  rejectsWithValues sv -> translateVideoContent sv b mime l <> Throws nullish.
Proof.
  intros (_ & G & _). unfold translateVideoContent, getAiClient.
  destruct (truthyStr (API_KEY sv)); [| discriminate].
  destruct (generateContent sv _) as [r | e] eqn:E;
    [| intros H; inversion H; subst; exact (G _ E)].
  destruct (truthyStr (text r)); [| discriminate].
  destruct (text r); discriminate.
Qed.

Lemma generateSpeech_reason (txt voice : string) (n : nat) :
  rejectsWithValues sv ->
  fst (generateSpeech sv txt voice n) <> Throws nullish.
Proof.
  intros (_ & G & D). unfold generateSpeech, getAiClient.
  destruct (truthyStr (API_KEY sv)); [| discriminate].
  destruct (generateContent sv _) as [r | e] eqn:E;
    [| cbn [fst]; intros H; inversion H; subst; exact (G _ E)].
  destruct (truthyStr (inlineData r)); [| discriminate].
  destruct (inlineData r) as [data |]; [| discriminate].
  destruct (decodeAudioData sv (decodeBase64 sv data)) as [buf | e] eqn:E';
    [discriminate |].
  cbn [fst]. intros H. inversion H; subst. exact (D _ E').
Qed.

(** What [processItem] returns when it returns. *)
Lemma processItem_Ok (item r : BatchItem) (w : World) :
  fst (processItem sv cfg item w) = Ok r ->
  id r = id item /\ file r = file item /\ videoUrl r = videoUrl item /\
  (status r = COMPLETED \/ status r = ERROR).
Proof.
  unfold processItem.
  destruct (fileToBase64 sv (file item)) as [b | e].
  - destruct (translateVideoContent sv b _ _) as [t | e].
    + cbn [onState openAudioContexts].
      destruct (generateSpeech sv t (voiceName cfg) (openAudioContexts w))
        as [[u | e] n]; cbn [fst]; intros H.
      * inversion H. repeat split. now left.
      * apply caught_Ok in H. destruct H as (x & _ & ->).
        repeat split. now right.
    + cbn [fst]. intros H. apply caught_Ok in H. destruct H as (x & _ & ->).
      repeat split. now right.
  - cbn [fst]. intros H. apply caught_Ok in H. destruct H as (x & _ & ->).
    repeat split. now right.
Qed.

(** Without [null] or [undefined] reasons [processItem] returns. *)
Lemma processItem_returns (item : BatchItem) (w : World) :
  rejectsWithValues sv -> exists r, fst (processItem sv cfg item w) = Ok r.
Proof.
  intros R. unfold processItem.
  destruct (fileToBase64 sv (file item)) as [b | e] eqn:F.
  - pose proof (translateVideoContent_reason b (type (file item))
                  (targetLanguage cfg) R) as T.
    destruct (translateVideoContent sv b _ _) as [t | e].
    + cbn [onState openAudioContexts].
      pose proof (generateSpeech_reason t (voiceName cfg)
                    (openAudioContexts w) R) as G.
      destruct (generateSpeech sv t (voiceName cfg) (openAudioContexts w))
        as [[u | e] n]; cbn [fst] in *.
      * eexists. reflexivity.
      * destruct e as [x |]; [| now contradict G]. eexists. reflexivity.
    + destruct e as [x |]; [| now contradict T]. eexists. reflexivity.
  - destruct R as (R & _). specialize (R (file item)). rewrite F in R.
    destruct e as [x |]; [| now contradict R]. eexists. reflexivity.
Qed.

(** X22.  [processItem] returns the item settled, with the same id, file
    and video URL and with status [COMPLETED] or [ERROR], whatever the
    helpers and the service do, unless one of them rejects with [null] or
    [undefined]: reading [e.message] in the [catch] block then throws and
    [processItem] rejects, and this is the only way it rejects.  A returned
    item is [COMPLETED] exactly when reading the file, translating and
    speech generation all succeed; the result then holds the script and the
    audio URL, and the item's earlier [error] message, if any, is still
    attached.  Otherwise the item carries a non-empty error message and its
    earlier result. *)
Theorem processItem_completes_or_fails (item : BatchItem) (w : World) :
  match fst (processItem sv cfg item w) with
  | Ok r =>
      id r = id item /\ file r = file item /\ videoUrl r = videoUrl item /\
      (status r = COMPLETED \/ status r = ERROR) /\
      (status r = COMPLETED <->
       exists b t u,
         fileToBase64 sv (file item) = Ok b /\
         translateVideoContent sv b (type (file item)) (targetLanguage cfg)
           = Ok t /\
         fst (generateSpeech sv t (voiceName cfg) (openAudioContexts w))
           = Ok u /\
         result r = Some (mkResult None (Some t) (Some u)) /\
         error r = error item) /\
      (status r = ERROR ->
       exists m,
         error r = Some m /\ m <> EmptyString /\ result r = result item)
  | Throws _ =>
      fileToBase64 sv (file item) = Throws nullish \/
      exists b,
        fileToBase64 sv (file item) = Ok b /\
        (translateVideoContent sv b (type (file item)) (targetLanguage cfg)
           = Throws nullish \/
         exists t,
           translateVideoContent sv b (type (file item)) (targetLanguage cfg)
             = Ok t /\
           fst (generateSpeech sv t (voiceName cfg) (openAudioContexts w))
             = Throws nullish)
  end /\
  (rejectsWithValues sv -> exists r, fst (processItem sv cfg item w) = Ok r).
Proof.
  split; [| apply processItem_returns].
  unfold processItem.
  destruct (fileToBase64 sv (file item)) as [b | e] eqn:F.
  - destruct (translateVideoContent sv b _ _) as [t | e] eqn:T.
    + cbn [onState openAudioContexts].
      destruct (generateSpeech sv t (voiceName cfg) (openAudioContexts w))
        as [[u | e] n] eqn:G; cbn [fst].
      * cbn [completed id file videoUrl status result error].
        do 3 (split; [reflexivity |]). split; [now left |].
        split; [| discriminate].
        split; [| reflexivity]. intros _.
        exists b, t, u. rewrite T, G. now repeat split.
      * destruct e as [x |]; cbn [caught].
        -- cbn [failed id file videoUrl status result error].
           do 3 (split; [reflexivity |]). split; [now right |].
           split.
           ++ split; [discriminate |].
              intros (b' & t' & u' & Hb & Ht & Hu & _).
              inversion Hb; subst. rewrite T in Ht. inversion Ht; subst.
              rewrite G in Hu. discriminate Hu.
           ++ intros _. exists (messageOf x).
              repeat split. apply messageOf_not_empty.
        -- right. exists b. split; [reflexivity |]. right.
           exists t. rewrite G. now split.
    + cbn [fst]. destruct e as [x |]; cbn [caught].
      * cbn [failed id file videoUrl status result error].
        do 3 (split; [reflexivity |]). split; [now right |].
        split.
        -- split; [discriminate |].
           intros (b' & t' & u' & Hb & Ht & _).
           inversion Hb; subst. rewrite T in Ht. discriminate Ht.
        -- intros _. exists (messageOf x).
           repeat split. apply messageOf_not_empty.
      * right. exists b. split; [reflexivity |]. now left.
  - cbn [fst]. destruct e as [x |]; cbn [caught].
    + cbn [failed id file videoUrl status result error].
      do 3 (split; [reflexivity |]). split; [now right |].
      split.
      * split; [discriminate |].
        intros (b' & t' & u' & Hb & _). discriminate Hb.
      * intros _. exists (messageOf x).
        repeat split. apply messageOf_not_empty.
    + now left.
Qed.

Lemma settled_id (item r : BatchItem) :
  settled sv cfg item = Ok r -> id r = id item.
Proof.
  unfold settled. intros H. now apply processItem_Ok in H.
Qed.

Lemma replaceItem_updateStatus (item r : BatchItem) (st : ItemStatus)
      (s : State) :
  replaceItem item r (batchItems (updateStatus item st s))
  = replaceItem item r (batchItems s).
Proof.
  unfold replaceItem, updateStatus. cbn [setBatchItems batchItems].
  rewrite map_map. apply map_ext. intros i.
  destruct (String.eqb (id i) (id item)) eqn:Q; [| now rewrite Q].
  cbn [setStatus id]. now rewrite Q.
Qed.

Lemma replaceItem_unique (item r : BatchItem) (pre rest : list BatchItem) :
  ~ In (id item) (map id pre) -> ~ In (id item) (map id rest) ->
  replaceItem item r (pre ++ item :: rest) = pre ++ r :: rest.
Proof.
  intros P R. unfold replaceItem. rewrite map_app. cbn [map].
  rewrite String.eqb_refl. f_equal; [| f_equal].
  - induction pre as [| o pre IH]; [reflexivity |]. cbn [map].
    destruct (String.eqb (id o) (id item)) eqn:Q.
    + apply String.eqb_eq in Q. exfalso. apply P. left. exact Q.
    + f_equal. apply IH. intros I. apply P. right. exact I.
  - induction rest as [| o rest IH]; [reflexivity |]. cbn [map].
    destruct (String.eqb (id o) (id item)) eqn:Q.
    + apply String.eqb_eq in Q. exfalso. apply R. left. exact Q.
    + f_equal. apply IH. intros I. apply R. right. exact I.
Qed.

(** The state after [processItem]: the list is the old one up to status
    updates of the item, the other cells are untouched. *)
Lemma processItem_state (item r : BatchItem) (w : World) :
  replaceItem item r (batchItems (state (snd (processItem sv cfg item w))))
  = replaceItem item r (batchItems (state w)) /\
  selectedItemId (state (snd (processItem sv cfg item w)))
  = selectedItemId (state w) /\
  isProcessingBatch (state (snd (processItem sv cfg item w)))
  = isProcessingBatch (state w) /\
  config (state (snd (processItem sv cfg item w))) = config (state w) /\
  previewingVoice (state (snd (processItem sv cfg item w)))
  = previewingVoice (state w) /\
  (openAudioContexts w <= openAudioContexts (snd (processItem sv cfg item w))
    <= S (openAudioContexts w))%nat.
Proof.
  unfold processItem.
  destruct (fileToBase64 sv (file item)) as [b | e].
  - destruct (translateVideoContent sv b _ _) as [t | e].
    + cbn [onState openAudioContexts state].
      pose proof (generateSpeech_contexts sv t (voiceName cfg)
                    (openAudioContexts w)) as [_ G].
      destruct (generateSpeech sv t (voiceName cfg) (openAudioContexts w))
        as [[u | e] n]; cbn [snd state onState openAudioContexts] in *;
        rewrite !replaceItem_updateStatus; repeat split; lia.
    + cbn [snd state onState openAudioContexts].
      rewrite !replaceItem_updateStatus. repeat split; lia.
  - cbn [snd state onState openAudioContexts].
    rewrite !replaceItem_updateStatus. repeat split; lia.
Qed.

End Batch.

Section BatchRun.

Import App.

Variable sv : Services.
Variable cfg : DubbingConfig.

(** The loop on a list whose items [processItem] returns settled as [g]
    says: it runs to the end and replaces each item in place. *)
Lemma processEach_items (g : BatchItem -> BatchItem)
      (items : list BatchItem) :
  forall pre w,
    NoDup (map id items) ->
    (forall x, In x (map id pre) -> ~ In x (map id items)) ->
    (forall i, In i items -> isCompleted i = false ->
       settled sv cfg i = Ok (g i)) ->
    batchItems (state w) = pre ++ items ->
    fst (processEach sv cfg items w) = Ok tt /\
    batchItems (state (snd (processEach sv cfg items w)))
      = pre ++ map (fun i => if isCompleted i then i else g i) items /\
    selectedItemId (state (snd (processEach sv cfg items w)))
      = selectedItemId (state w) /\
    isProcessingBatch (state (snd (processEach sv cfg items w)))
      = isProcessingBatch (state w) /\
    config (state (snd (processEach sv cfg items w))) = config (state w) /\
    previewingVoice (state (snd (processEach sv cfg items w)))
      = previewingVoice (state w).
Proof.
  induction items as [| item rest IH]; intros pre w N D G B.
  - cbn [processEach map fst snd]. repeat split. exact B.
  - inversion N as [| ? ? Nitem Nrest]; subst.
    cbn [processEach map]. destruct (isCompleted item) eqn:Done.
    + destruct (IH (pre ++ [item]) w Nrest) as (O & L & Rest).
      * intros x I. rewrite map_app in I. apply in_app_or in I.
        destruct I as [I | [<- | []]]; [| exact Nitem].
        intros J. apply (D x I). right. exact J.
      * intros i I. apply G. right. exact I.
      * rewrite B, <- app_assoc. reflexivity.
      * rewrite L, <- app_assoc.
        split; [exact O |]. split; [reflexivity | exact Rest].
    + pose proof (processItem_settled sv cfg item w) as S.
      rewrite (G item (or_introl eq_refl) Done) in S.
      pose proof (settled_id sv cfg item (g item)
                    (G item (or_introl eq_refl) Done)) as Gid.
      pose proof (processItem_state sv cfg item (g item) w)
        as (R & Sel & Pb & Cf & Pv & _).
      destruct (processItem sv cfg item w) as [r w1].
      cbn [fst snd] in S, R, Sel, Pb, Cf, Pv. subst r.
      rewrite B in R.
      rewrite replaceItem_unique in R;
        [| intros I; apply (D _ I); left; reflexivity | exact Nitem].
      destruct (IH (pre ++ [g item])
                   (onState (fun s =>
                      setBatchItems
                        (replaceItem item (g item) (batchItems s)) s) w1)
                   Nrest)
        as (O & L & Sel' & Pb' & Cf' & Pv').
      * intros x I. rewrite map_app in I. apply in_app_or in I.
        destruct I as [I | [<- | []]].
        -- intros J. apply (D x I). right. exact J.
        -- rewrite Gid. exact Nitem.
      * intros i I. apply G. right. exact I.
      * cbn [onState state setBatchItems batchItems]. rewrite R.
        rewrite <- app_assoc. reflexivity.
      * rewrite L, <- app_assoc.
        split; [exact O |]. split; [reflexivity |].
        cbn [onState state setBatchItems selectedItemId isProcessingBatch
             config previewingVoice] in Sel', Pb', Cf', Pv'.
        repeat split; congruence.
Qed.

Lemma processEach_contexts (items : list BatchItem) :
  forall w,
    (openAudioContexts w
     <= openAudioContexts (snd (processEach sv cfg items w))
     <= openAudioContexts w + List.length items)%nat /\
    ((forall i w', In i items ->
        openAudioContexts (snd (processItem sv cfg i w'))
        = openAudioContexts w') ->
     openAudioContexts (snd (processEach sv cfg items w))
     = openAudioContexts w).
Proof.
  induction items as [| item rest IH]; intros w; cbn [processEach List.length].
  - cbn [snd]. split; [lia | reflexivity].
  - destruct (isCompleted item).
    + destruct (IH w) as [Bd Eq]. split; [lia |].
      intros K. apply Eq. intros i w' I. apply K. right. exact I.
    + pose proof (processItem_state sv cfg item item w)
        as (_ & _ & _ & _ & _ & Bd).
      destruct (processItem sv cfg item w) as [[r | e] w1] eqn:P;
        cbn [snd] in Bd.
      * destruct (IH (onState (fun s =>
                        setBatchItems (replaceItem item r (batchItems s)) s)
                        w1))
          as [Bd' Eq].
        cbn [onState openAudioContexts] in Bd', Eq |- *.
        split; [lia |].
        intros K. rewrite Eq.
        -- specialize (K item w (or_introl eq_refl)). rewrite P in K. exact K.
        -- intros i w' I. apply K. right. exact I.
      * cbn [snd]. split; [lia |].
        intros K. specialize (K item w (or_introl eq_refl)).
        rewrite P in K. exact K.
Qed.

End BatchRun.

Section BatchTheorems.

Import App.

Variable sv : Services.

Lemma handleProcessBatch_contexts (w : World) :
  openAudioContexts (handleProcessBatch sv w)
  = openAudioContexts
      (snd (processEach sv (config (state w)) (batchItems (state w))
              (onState (setProcessingError "")
                 (onState (setIsProcessingBatch true) w)))).
Proof.
  unfold handleProcessBatch. cbv zeta.
  destruct (processEach sv _ _ _) as [[u | e] w1]; reflexivity.
Qed.

Lemma handleProcessBatch_items (g : BatchItem -> BatchItem) (w : World) :
  NoDup (map id (batchItems (state w))) ->
  (forall i, In i (batchItems (state w)) -> isCompleted i = false ->
     settled sv (config (state w)) i = Ok (g i)) ->
  handleProcessBatchOutcome sv w = Ok tt /\
  batchItems (state (handleProcessBatch sv w))
    = map (fun i => if isCompleted i then i else g i) (batchItems (state w)) /\
  selectedItemId (state (handleProcessBatch sv w)) = selectedItemId (state w) /\
  config (state (handleProcessBatch sv w)) = config (state w) /\
  previewingVoice (state (handleProcessBatch sv w))
    = previewingVoice (state w) /\
  isProcessingBatch (state (handleProcessBatch sv w)) = false.
Proof.
  intros N G. unfold handleProcessBatch, handleProcessBatchOutcome. cbv zeta.
  destruct (processEach_items sv (config (state w)) g (batchItems (state w)) []
              (onState (setProcessingError "")
                 (onState (setIsProcessingBatch true) w)) N)
    as (O & L & Sel & _ & Cf & Pv).
  - intros x [].
  - exact G.
  - reflexivity.
  - destruct (processEach sv _ _ _) as [[u | e] w1];
      cbn [fst snd] in O, L, Sel, Cf, Pv; [| discriminate O].
    cbn [onState state setBatchItems setIsProcessingBatch setProcessingError
         batchItems selectedItemId config previewingVoice isProcessingBatch]
      in *.
    cbn [app] in L. rewrite L, Sel, Cf, Pv. split; [exact O |]. repeat split.
Qed.

Lemma Forall2_map_in {A B : Type} (R : A -> B -> Prop) (f : A -> B)
      (l : list A) :
  (forall x, In x l -> R x (f x)) -> Forall2 R l (map f l).
Proof.
  induction l as [| x l IH]; intros H; cbn [map]; constructor.
  - apply H. now left.
  - apply IH. intros y I. apply H. now right.
Qed.

(** X23.  When no helper and no request rejects with [null] or [undefined]
    and the ids are pairwise distinct, [handleProcessBatch] is fulfilled and
    settles every queued item in place: an item that is [COMPLETED] is left
    as it is (it is not processed again), every other item, also one that
    failed before, is replaced by what [processItem] returns for it, so a
    failure of one item does not keep the later ones from being processed.
    Afterwards every item is [COMPLETED] or [ERROR], ids and files are in
    the same order as before, [isProcessingBatch] is false and the selection
    is unchanged. *)
Theorem handleProcessBatch_settles_every_item (w : World) :
  rejectsWithValues sv ->
  NoDup (map id (batchItems (state w))) ->
  handleProcessBatchOutcome sv w = Ok tt /\
  Forall2 (fun i r =>
             if isCompleted i then r = i
             else fst (processItem sv (config (state w)) i w) = Ok r)
          (batchItems (state w))
          (batchItems (state (handleProcessBatch sv w))) /\
  Forall (fun i => status i = COMPLETED \/ status i = ERROR)
         (batchItems (state (handleProcessBatch sv w))) /\
  map id (batchItems (state (handleProcessBatch sv w)))
    = map id (batchItems (state w)) /\
  map file (batchItems (state (handleProcessBatch sv w)))
    = map file (batchItems (state w)) /\
  isProcessingBatch (state (handleProcessBatch sv w)) = false /\
  selectedItemId (state (handleProcessBatch sv w)) = selectedItemId (state w).
Proof.
  intros V N.
  set (g := fun i => match settled sv (config (state w)) i with
                     | Ok r => r
                     | Throws _ => i
                     end).
  assert (G : forall i, settled sv (config (state w)) i = Ok (g i)).
  { intros i. unfold g.
    destruct (processItem_returns sv (config (state w)) i (mkWorld initial 0) V)
      as (r & E).
    unfold settled. now rewrite E. }
  destruct (handleProcessBatch_items g w N (fun i _ _ => G i))
    as (O & L & Sel & _ & _ & Pb).
  split; [exact O |]. rewrite L.
  split; [| split; [| split; [| split; [| split; [exact Pb | exact Sel]]]]].
  - apply Forall2_map_in. intros i _.
    destruct (isCompleted i); [reflexivity |].
    rewrite processItem_settled. apply G.
  - apply Forall_forall. intros r I. apply in_map_iff in I.
    destruct I as (i & <- & _). unfold isCompleted.
    destruct (status i) eqn:St; try (now left);
      apply (processItem_Ok sv (config (state w)) i (g i) (mkWorld initial 0));
      apply G.
  - rewrite map_map. apply map_ext. intros i.
    destruct (isCompleted i); [reflexivity |].
    apply (settled_id sv (config (state w))), G.
  - rewrite map_map. apply map_ext. intros i.
    destruct (isCompleted i); [reflexivity |].
    apply (processItem_Ok sv (config (state w)) i (g i) (mkWorld initial 0)).
    apply G.
Qed.

(** X24.  Without an API key a batch fails item by item, not as a whole:
    with pairwise distinct ids and readable files, after
    [handleProcessBatch] every item that was not [COMPLETED] has status
    [ERROR] and carries the missing-key message, the [COMPLETED] items are
    unchanged, and no audio context was opened. *)
Theorem handleProcessBatch_without_api_key (w : World) :
  truthyStr (API_KEY sv) = false ->
  NoDup (map id (batchItems (state w))) ->
  (forall i, In i (batchItems (state w)) ->
     exists b, fileToBase64 sv (file i) = Ok b) ->
  batchItems (state (handleProcessBatch sv w))
    = map (fun i =>
             if isCompleted i then i
             else failed i (Error "API Key is missing in environment variables."))
          (batchItems (state w)) /\
  openAudioContexts (handleProcessBatch sv w) = openAudioContexts w.
Proof.
  intros K N F.
  destruct (handleProcessBatch_items
              (fun i =>
                 failed i (Error "API Key is missing in environment variables."))
              w N) as (_ & L & _).
  { intros i I _. destruct (F i I) as (b & Fb).
    unfold settled, processItem. rewrite Fb.
    unfold translateVideoContent, getAiClient. rewrite K. reflexivity. }
  split; [exact L |].
  rewrite handleProcessBatch_contexts.
  destruct (processEach_contexts sv (config (state w)) (batchItems (state w))
              (onState (setProcessingError "")
                 (onState (setIsProcessingBatch true) w))) as [_ Eq].
  rewrite Eq; [reflexivity |].
  intros i w' I. unfold processItem.
  destruct (fileToBase64 sv (file i)); [| reflexivity].
  unfold translateVideoContent, getAiClient. rewrite K. reflexivity.
Qed.

Lemma generateSpeech_decoded (txt voice : string) (n : nat) :
  (forall bytes, exists buffer, decodeAudioData sv bytes = Ok buffer) ->
  snd (generateSpeech sv txt voice n) = n.
Proof.
  intros D. unfold generateSpeech.
  destruct (getAiClient sv); [| reflexivity].
  destruct (generateContent sv _) as [r | e]; [| reflexivity].
  destruct (truthyStr (inlineData r)); [| reflexivity].
  destruct (inlineData r) as [data |]; [| reflexivity].
  destruct (D (decodeBase64 sv data)) as (b & ->). reflexivity.
Qed.

(** X25.  A batch leaves audio contexts open only through failed decodings:
    the number of open contexts never goes down during
    [handleProcessBatch] and goes up by at most one per queued item, and
    when [decodeAudioData] never fails it is the same after the batch as
    before. *)
Theorem handleProcessBatch_audio_contexts (w : World) :
  (openAudioContexts w <= openAudioContexts (handleProcessBatch sv w)
   <= openAudioContexts w + List.length (batchItems (state w)))%nat /\
  ((forall bytes, exists buffer, decodeAudioData sv bytes = Ok buffer) ->
   openAudioContexts (handleProcessBatch sv w) = openAudioContexts w).
Proof.
  rewrite handleProcessBatch_contexts.
  destruct (processEach_contexts sv (config (state w)) (batchItems (state w))
              (onState (setProcessingError "")
                 (onState (setIsProcessingBatch true) w))) as [Bd Eq].
  cbn [onState openAudioContexts] in Bd, Eq.
  split; [exact Bd |]. intros D. apply Eq.
  intros i w' I. unfold processItem.
  destruct (fileToBase64 sv (file i)) as [b | e]; [| reflexivity].
  destruct (translateVideoContent sv _ _ _) as [t | e]; [| reflexivity].
  cbn [onState openAudioContexts].
  pose proof (generateSpeech_decoded t (voiceName (config (state w)))
                (openAudioContexts w') D) as G.
  destruct (generateSpeech sv t _ _) as [[u | e] n]; cbn [snd] in G;
    subst n; reflexivity.
Qed.

(** X26.  At most one voice preview at a time: while [previewingVoice] is
    set, [handlePreviewVoice] changes nothing.  Otherwise it requests the
    sample sentence of the configured language in the given voice and ends
    with [previewingVoice] set to that voice exactly when the speech was
    generated and playback started; on any failure [previewingVoice] is
    cleared again.  The queue, the selection and the configuration are never
    touched, and the [ended] event clears [previewingVoice]. *)
Theorem handlePreviewVoice_one_at_a_time (voice : string) (w : World) :
  (truthyStr (previewingVoice (state w)) = true ->
   handlePreviewVoice sv voice w = w) /\
  (truthyStr (previewingVoice (state w)) = false ->
   (previewingVoice (state (handlePreviewVoice sv voice w)) = Some voice <->
    exists url,
      fst (generateSpeech sv
             (VOICE_SAMPLES (targetLanguage (config (state w)))) voice
             (openAudioContexts w)) = Ok url /\
      playFulfils sv url = true) /\
   (previewingVoice (state (handlePreviewVoice sv voice w)) = Some voice \/
    previewingVoice (state (handlePreviewVoice sv voice w)) = None)) /\
  batchItems (state (handlePreviewVoice sv voice w)) = batchItems (state w) /\
  selectedItemId (state (handlePreviewVoice sv voice w))
    = selectedItemId (state w) /\
  config (state (handlePreviewVoice sv voice w)) = config (state w) /\
  previewingVoice (state (onPreviewEnded (handlePreviewVoice sv voice w)))
    = None.
Proof.
  unfold handlePreviewVoice, previewVoiceModel.
  destruct (truthyStr (previewingVoice (state w))) eqn:P.
  - repeat split; try discriminate.
  - cbn [onState state setPreviewingVoice config openAudioContexts].
    destruct (generateSpeech sv _ voice (openAudioContexts w))
      as [[url | e] n].
    + destruct (playFulfils sv url) eqn:Pl;
        cbn [onState state setPreviewingVoice previewingVoice batchItems
             selectedItemId config fst].
      * split; [discriminate |]. split; [| repeat split].
        intros _. split; [| now left].
        split; [intros _; exists url; now split | reflexivity].
      * split; [discriminate |]. split; [| repeat split].
        intros _. split; [| now right].
        split; [discriminate |].
        intros (u & E & Pu). inversion E; subst. congruence.
    + cbn [onState state setPreviewingVoice previewingVoice batchItems
           selectedItemId config fst].
      split; [discriminate |]. split; [| repeat split].
      intros _. split; [| now right].
      split; [discriminate |]. intros (u & E & _). discriminate E.
Qed.

End BatchTheorems.

Section BatchExamples.

Import App.
Local Open Scope string_scope.

Lemma demoQueue_ids : NoDup (map id (batchItems (state demoQueue))).
Proof.
  cbn. repeat constructor; cbn; intuition discriminate.
Qed.

Lemma demoServices_reasons (key : option string) :
  rejectsWithValues (demoServices key).
Proof. repeat split; intros x; discriminate. Qed.

Lemma processItem_completes_or_fails_witness :
  exists r,
    fst (processItem (demoServices (Some "key")) (config (state demoQueue))
           (newItem (mkPicked (mkFile "a.mp4" "video/mp4") "k3x9" "blob:a"))
           demoQueue) = Ok r.
Proof.
  apply (proj2 (processItem_completes_or_fails (demoServices (Some "key"))
                  (config (state demoQueue))
                  (newItem (mkPicked (mkFile "a.mp4" "video/mp4") "k3x9"
                                     "blob:a"))
                  demoQueue)).
  repeat split; intros x; discriminate.
Defined.

Lemma handleProcessBatch_settles_every_item_witness :
  handleProcessBatchOutcome (demoServices (Some "key")) demoQueue = Ok tt /\
  Forall2 (fun i r =>
             if isCompleted i then r = i
             else fst (processItem (demoServices (Some "key"))
                         (config (state demoQueue)) i demoQueue) = Ok r)
          (batchItems (state demoQueue))
          (batchItems
             (state (handleProcessBatch (demoServices (Some "key")) demoQueue))) /\
  Forall (fun i => status i = COMPLETED \/ status i = ERROR)
         (batchItems
            (state (handleProcessBatch (demoServices (Some "key")) demoQueue))) /\
  map id (batchItems
            (state (handleProcessBatch (demoServices (Some "key")) demoQueue)))
    = map id (batchItems (state demoQueue)) /\
  map file (batchItems
              (state (handleProcessBatch (demoServices (Some "key")) demoQueue)))
    = map file (batchItems (state demoQueue)) /\
  isProcessingBatch
    (state (handleProcessBatch (demoServices (Some "key")) demoQueue)) = false /\
  selectedItemId
    (state (handleProcessBatch (demoServices (Some "key")) demoQueue))
    = selectedItemId (state demoQueue).
Proof.
  apply (handleProcessBatch_settles_every_item (demoServices (Some "key"))
           demoQueue).
  - repeat split; intros x; discriminate.
  - cbn. repeat constructor; cbn; intuition discriminate.
Defined.

(** The demo batch, evaluated: with a key both items complete, without one
    both fail with the missing-key message. *)
Example demo_batch :
  map status
      (batchItems
         (state (handleProcessBatch (demoServices (Some "key")) demoQueue)))
    = [COMPLETED; COMPLETED] /\
  map audioUrlProp
      (batchItems
         (state (handleProcessBatch (demoServices (Some "key")) demoQueue)))
    = [Some "blob:wav"; Some "blob:wav"]%string /\
  map error
      (batchItems (state (handleProcessBatch (demoServices None) demoQueue)))
    = [Some "API Key is missing in environment variables.";
       Some "API Key is missing in environment variables."]%string.
Proof. repeat split. Qed.

(** A batch on a page where reading a file rejects with [undefined]: the
    [catch] of [processItem] throws on [e.message], the handler rejects
    with that [TypeError], the first item is left [UPLOADING], the second
    is never started and [isProcessingBatch] stays set. *)
Example batch_rejected_with_undefined :
  handleProcessBatchOutcome unreadableFiles demoQueue
    = Throws (TypeError "Cannot read properties of undefined (reading 'message')") /\
  map status
      (batchItems (state (handleProcessBatch unreadableFiles demoQueue)))
    = [UPLOADING; PENDING] /\
  isProcessingBatch (state (handleProcessBatch unreadableFiles demoQueue))
    = true.
Proof. repeat split. Qed.

Lemma handleProcessBatch_without_api_key_witness :
  batchItems (state (handleProcessBatch (demoServices None) demoQueue))
    = map (fun i =>
             if isCompleted i then i
             else failed i (Error "API Key is missing in environment variables."))
          (batchItems (state demoQueue)) /\
  openAudioContexts (handleProcessBatch (demoServices None) demoQueue)
    = openAudioContexts demoQueue.
Proof.
  apply (handleProcessBatch_without_api_key (demoServices None) demoQueue).
  - reflexivity.
  - exact demoQueue_ids.
  - intros i _. exists "AAAA"%string. reflexivity.
Defined.

End BatchExamples.
